(** * Liveness reconciler of the NodeClaim lifecycle controller

    A shallow embedding of
    [pkg/controllers/nodeclaim/lifecycle/liveness.go]: the timeout state
    machine [Reconcile], the pool health propagation
    [updateNodePoolRegistrationHealth] and the timed-out deletion
    [deleteNodeClaimForTimeout].

    The reconciler talks to three collaborators (a clock, the API client,
    the metrics and log sinks).  They are modelled as an interface over an
    abstract world; every call is recorded, with its answer, in a trace, so
    that statements such as "no pool write occurs" or "deleted exactly
    once" are statements about that trace. *)

From stdpp Require Import base strings gmap list.
From Stdlib Require Import ZArith Lia.

Local Open Scope string_scope.
Local Open Scope list_scope.
Local Open Scope Z_scope.

(** ** Go's [time] package: durations and instants *)

Module time.

(** [time.Duration] is an [int64] count of nanoseconds. *)
Definition Duration := Z.

Definition minDuration : Duration := - 2 ^ 63.
Definition maxDuration : Duration := 2 ^ 63 - 1.

(** Two's complement wrap-around of [int64] arithmetic. *)
Definition wrap64 (z : Z) : Z := (z + 2 ^ 63) mod 2 ^ 64 - 2 ^ 63.

(** [a - b] on two [Duration]s (Go's [-] on [int64]). *)
Definition sub (a b : Duration) : Duration := wrap64 (a - b).

Definition Nanosecond : Duration := 1.
Definition Second : Duration := 1000000000 * Nanosecond.
Definition Minute : Duration := 60 * Second.

(** An instant, in nanoseconds from a fixed origin.  [time.Time] ranges
    much further than a [Duration] does, so instants are unbounded. *)
Definition Time := Z.

(** [t.Sub(u)]: the difference, saturated at the least and greatest
    [Duration]. *)
Definition Time_Sub (t u : Time) : Duration :=
  if t - u <? minDuration then minDuration
  else if maxDuration <? t - u then maxDuration
  else t - u.

End time.

(** ** API objects *)

Inductive ConditionStatus := ConditionTrue | ConditionFalse | ConditionUnknown.

Record Condition := {
  Type_ : string;
  Status : ConditionStatus;
  Reason : string;
  Message : string;
  LastTransitionTime : time.Time
}.

Record NodeClaim := {
  nc_Name : string;
  nc_Labels : gmap string string;
  nc_Conditions : list Condition
}.

Record NodePool := {
  np_Name : string;
  np_ResourceVersion : Z;
  np_Conditions : list Condition
}.

(** Modelled from the spec: the key of the pool-name label, declared in
    [pkg/apis/v1], which is not among the sources.  No statement below
    depends on the text of a key or of a condition type, only on their
    being distinct. *)
Definition NodePoolLabelKey : string := "karpenter.sh/nodepool".

(** Modelled from the spec: the key of the capacity-type label, declared in
    [pkg/apis/v1]. *)
Definition CapacityTypeLabelKey : string := "karpenter.sh/capacity-type".

(** Modelled from the spec: the type of the Launched condition, declared in
    [pkg/apis/v1]. *)
Definition ConditionTypeLaunched : string := "Launched".

(** Modelled from the spec: the type of the Registered condition, declared
    in [pkg/apis/v1]. *)
Definition ConditionTypeRegistered : string := "Registered".

(** Modelled from the spec: the type of the pool's registration-health
    condition, declared in [pkg/apis/v1]. *)
Definition ConditionTypeNodeRegistrationHealthy : string := "NodeRegistrationHealthy".

(** [m[k]] on a Go [map[string]string]: the empty string when [k] is absent. *)
Definition label (m : gmap string string) (k : string) : string :=
  default "" (m !! k).

(** Modelled from the spec: the condition set of an object
    ([StatusConditions()], [Get], [IsTrue], [IsUnknown], [SetFalse]), whose
    code is not among the sources.  A condition is a named tri-state value
    with reason, message and last-transition time; an absent condition
    ([None], a nil pointer in the code) is "not yet observed". *)
Definition ConditionSet_Get (cs : list Condition) (t : string) : option Condition :=
  List.find (fun c => String.eqb (Type_ c) t) cs.

(** Modelled from the spec: [IsTrue] of the condition library; a nil
    condition is not True. *)
Definition IsTrue (c : option Condition) : bool :=
  match c with
  | Some {| Status := ConditionTrue |} => true
  | _ => false
  end.

(** Modelled from the spec: [IsFalse] of the condition library; a nil
    condition is not False. *)
Definition IsFalse (c : option Condition) : bool :=
  match c with
  | Some {| Status := ConditionFalse |} => true
  | _ => false
  end.

(** Modelled from the spec: [IsUnknown] of the condition library; on a nil
    condition it answers [true], nothing having been observed. *)
Definition IsUnknown (c : option Condition) : bool :=
  match c with
  | Some {| Status := ConditionUnknown |} => true
  | Some _ => false
  | None => true
  end.

(** Modelled from the spec: [SetFalse t reason message] of the condition
    library, whose code is not among the sources: the condition [t] becomes
    False with the given reason and message; the other conditions are
    kept.  The transition time of the new entry is the one of the entry it
    replaces (the origin when there was none): no statement below reads
    it. *)
Definition ConditionSet_SetFalse (cs : list Condition) (t reason message : string)
  : list Condition :=
  List.filter (fun c => negb (String.eqb (Type_ c) t)) cs ++
  [ {| Type_ := t; Status := ConditionFalse; Reason := reason; Message := message;
       LastTransitionTime :=
         match ConditionSet_Get cs t with
         | Some c => LastTransitionTime c
         | None => 0
         end |} ].

(** Modelled from the spec: [nodePool.StatusConditions().SetFalse(...)],
    the condition set of a pool being its list of conditions. *)
Definition NodePool_SetFalse (np : NodePool) (t reason message : string) : NodePool :=
  {| np_Name := np_Name np;
     np_ResourceVersion := np_ResourceVersion np;
     np_Conditions := ConditionSet_SetFalse (np_Conditions np) t reason message |}.

(** [nodePool.DeepCopy()]: values are immutable here, the copy is the value. *)
Definition DeepCopy (np : NodePool) : NodePool := np.

(** ** Errors of the API client *)

(** The errors the reconciler tells apart.  A Go [error] value is an
    [option error]: [None] is [nil]. *)
Inductive error :=
| ErrNotFound
| ErrConflict
| ErrOther (msg : string).

(** [client.IgnoreNotFound]. *)
Definition IgnoreNotFound (err : option error) : option error :=
  match err with
  | Some ErrNotFound => None
  | _ => err
  end.

(** [errors.IsConflict]. *)
Definition IsConflict (err : option error) : bool :=
  match err with
  | Some ErrConflict => true
  | _ => false
  end.

(** ** The reconcile result *)

Record Result := {
  Requeue : bool;
  RequeueAfter : time.Duration
}.

(** [reconcile.Result{}]. *)
Definition Result_zero : Result := {| Requeue := false; RequeueAfter := 0 |}.

(** [reconcile.Result{Requeue: true}]. *)
Definition Result_requeue : Result := {| Requeue := true; RequeueAfter := 0 |}.

(** [reconcile.Result{RequeueAfter: d}]. *)
Definition Result_after (d : time.Duration) : Result :=
  {| Requeue := false; RequeueAfter := d |}.

(** ** Constants of the reconciler *)

Definition registrationTimeout : time.Duration := time.Minute * 15.
Definition registrationTimeoutReason : string := "registration_timeout".
Definition launchTimeout : time.Duration := time.Minute * 5.
Definition launchTimeoutReason : string := "launch_timeout".

Record NodeClaimTimeout := {
  duration : time.Duration;
  reason : string
}.

Definition RegistrationTimeout : NodeClaimTimeout :=
  {| duration := registrationTimeout; reason := registrationTimeoutReason |}.
Definition LaunchTimeout : NodeClaimTimeout :=
  {| duration := launchTimeout; reason := launchTimeoutReason |}.

(** ** Collaborators and traces *)

(** The clock ([clock.Clock]) and the API client ([client.Client]) are
    interfaces: an implementation answers each call from its own state [W]
    and may change that state (the clock advances, the store is written). *)
Class Collaborators (W : Type) := {
  clock_Now : W → time.Time * W;
  kube_Get : string → W → (error + NodePool) * W;
  kube_StatusPatch : NodePool → NodePool → bool → W → option error * W;
  kube_Delete : NodeClaim → W → option error * W
}.

(** One entry per call that leaves the reconciler, with its answer. *)
Inductive Event :=
| EvSince (t : time.Time) (d : time.Duration)
| EvGet (name : string) (r : error + NodePool)
| EvStatusPatch (obj stored : NodePool) (optimisticLock : bool) (r : option error)
| EvDelete (nc : NodeClaim) (r : option error)
| EvLog (timeout : time.Duration) (reason : string)
| EvMetricInc (reason nodepool capacityType : string).

(** A computation either yields a value or panics on a nil dereference. *)
Inductive outcome (A : Type) :=
| Value (a : A)
| Panic.
Arguments Value {A} a.
Arguments Panic {A}.

(** State passing: the collaborators' world and the trace so far. *)
Definition M (W A : Type) : Type := W → list Event → outcome A * W * list Event.

Definition ret {W A} (a : A) : M W A := fun w tr => (Value a, w, tr).

Definition bind {W A B} (m : M W A) (k : A → M W B) : M W B :=
  fun w tr =>
    match m w tr with
    | (Value a, w', tr') => k a w' tr'
    | (Panic, w', tr') => (Panic, w', tr')
    end.

Definition panic {W A} : M W A := fun w tr => (Panic, w, tr).

Notation "'let*' x ':=' m 'in' k" := (bind m (fun x => k))
  (at level 10, x pattern, m at level 100, k at level 200).

Section Calls.
Context {W : Type} `{Collaborators W}.

(** [l.clock.Since(t)]: the clock is read once, the answer is [Now().Sub(t)]. *)
Definition Since (t : time.Time) : M W time.Duration :=
  fun w tr =>
    let '(now, w') := clock_Now w in
    let d := time.Time_Sub now t in
    (Value d, w', tr ++ [EvSince t d]).

(** [l.kubeClient.Get(ctx, types.NamespacedName{Name: name}, nodePool)]. *)
Definition Get (name : string) : M W (error + NodePool) :=
  fun w tr =>
    let '(r, w') := kube_Get name w in
    (Value r, w', tr ++ [EvGet name r]).

(** [l.kubeClient.Status().Patch(ctx, obj, client.MergeFromWithOptions(stored, opts))],
    [optimisticLock] telling whether [opts] holds [MergeFromWithOptimisticLock]. *)
Definition StatusPatch (obj stored : NodePool) (optimisticLock : bool) : M W (option error) :=
  fun w tr =>
    let '(r, w') := kube_StatusPatch obj stored optimisticLock w in
    (Value r, w', tr ++ [EvStatusPatch obj stored optimisticLock r]).

(** [l.kubeClient.Delete(ctx, nodeClaim)]. *)
Definition Delete (nc : NodeClaim) : M W (option error) :=
  fun w tr =>
    let '(r, w') := kube_Delete nc w in
    (Value r, w', tr ++ [EvDelete nc r]).

(** [log.FromContext(ctx).V(1).WithValues("timeout", d, "reason", r).Info(...)]. *)
Definition LogInfo (d : time.Duration) (r : string) : M W unit :=
  fun w tr => (Value tt, w, tr ++ [EvLog d r]).

(** [metrics.NodeClaimsDisruptedTotal.Inc(labels)], the three labels being
    the reason, the pool and the capacity type. *)
Definition MetricInc (r nodepool capacityType : string) : M W unit :=
  fun w tr => (Value tt, w, tr ++ [EvMetricInc r nodepool capacityType]).

(** ** The reconciler *)

Definition deleteNodeClaimForTimeout (timeout : NodeClaimTimeout) (nodeClaim : NodeClaim)
  : M W (option error) :=
  let* err := Delete nodeClaim in
  match err with
  | Some e => ret (Some e)
  | None =>
      let* _ := LogInfo (duration timeout) (reason timeout) in
      let* _ := MetricInc (reason timeout)
                  (label (nc_Labels nodeClaim) NodePoolLabelKey)
                  (label (nc_Labels nodeClaim) CapacityTypeLabelKey) in
      ret None
  end.

(** Sets NodeRegistrationHealthy=False on the pool when the claim failed to
    launch or register. *)
Definition updateNodePoolRegistrationHealth (nodeClaim : NodeClaim) : M W (option error) :=
  let nodePoolName := label (nc_Labels nodeClaim) NodePoolLabelKey in
  if negb (String.eqb nodePoolName "") then
    let* got := Get nodePoolName in
    match got with
    | inl err => ret (Some err)
    | inr nodePool =>
        if IsUnknown (ConditionSet_Get (np_Conditions nodePool)
                        ConditionTypeNodeRegistrationHealthy) then
          let stored := DeepCopy nodePool in
          let launchCondition :=
            ConditionSet_Get (nc_Conditions nodeClaim) ConditionTypeLaunched in
          let* nodePool' :=
            if IsTrue launchCondition then
              ret (NodePool_SetFalse nodePool ConditionTypeNodeRegistrationHealthy
                     "RegistrationFailed" "Failed to register node")
            else
              match launchCondition with
              | Some c =>
                  ret (NodePool_SetFalse nodePool ConditionTypeNodeRegistrationHealthy
                         (Reason c) (Message c))
              | None => panic
              end in
          let* err := StatusPatch nodePool' stored true in
          match IgnoreNotFound err with
          | Some _ => ret err
          | None => ret None
          end
        else ret None
    end
  else ret None.

(** The launch stage of [Reconcile] (the block under [!launched.IsTrue()]):
    [Some] is a [return], [None] falls through to the statements after
    the block. *)
Definition launchStage (nodeClaim : NodeClaim) (launched : Condition)
  : M W (option (Result * option error)) :=
  if negb (IsTrue (Some launched)) then
    let* since := Since (LastTransitionTime launched) in
    let timeUntilTimeout := time.sub launchTimeout since in
    if 0 <? timeUntilTimeout then
      ret (Some (Result_after timeUntilTimeout, None))
    else
      let* err := deleteNodeClaimForTimeout LaunchTimeout nodeClaim in
      match err with
      | Some _ =>
          match IgnoreNotFound err with
          | Some _ => ret (Some (Result_zero, err))
          | None => ret (Some (Result_zero, None))
          end
      | None => ret None
      end
  else ret None.

(** The statements of [Reconcile] from [if registered == nil] on. *)
Definition registrationStage (nodeClaim : NodeClaim) (registered : option Condition)
  : M W (Result * option error) :=
  match registered with
  | None => ret (Result_requeue, None)
  | Some reg =>
      let* since := Since (LastTransitionTime reg) in
      let timeUntilTimeout := time.sub registrationTimeout since in
      if 0 <? timeUntilTimeout then
        ret (Result_after timeUntilTimeout, None)
      else
        let* err := updateNodePoolRegistrationHealth nodeClaim in
        match IgnoreNotFound err with
        | Some _ =>
            if IsConflict err then ret (Result_requeue, None)
            else ret (Result_zero, err)
        | None =>
            let* err := deleteNodeClaimForTimeout RegistrationTimeout nodeClaim in
            match err with
            | Some _ =>
                match IgnoreNotFound err with
                | Some _ => ret (Result_zero, err)
                | None => ret (Result_zero, None)
                end
            | None => ret (Result_zero, None)
            end
        end
  end.

Definition Reconcile (nodeClaim : NodeClaim) : M W (Result * option error) :=
  let registered := ConditionSet_Get (nc_Conditions nodeClaim) ConditionTypeRegistered in
  if IsTrue registered then ret (Result_zero, None)
  else
    let launched := ConditionSet_Get (nc_Conditions nodeClaim) ConditionTypeLaunched in
    match launched with
    | None => ret (Result_requeue, None)
    | Some l =>
        let* returned := launchStage nodeClaim l in
        match returned with
        | Some r => ret r
        | None => registrationStage nodeClaim registered
        end
    end.

(** One invocation, from an empty trace. *)
Definition run {A} (m : M W A) (w : W) : outcome A * W * list Event := m w [].

End Calls.

(** ** A reference store *)

(** Modelled from the spec: the resource store and the clock of section 6
    (external interfaces), which the reconciler only sees through
    [client.Client] and [clock.Clock].  [get] answers the object or
    NotFound; [delete] answers ok or NotFound; the conditional status patch
    answers NotFound, Conflict when the version read is no longer the
    stored one, and ok otherwise, replacing the condition list and moving
    the version on.  A pool is kept under its name, as its version and its
    conditions. *)
Record Store := {
  st_now : time.Time;
  st_claims : gset string;
  st_pools : gmap string (Z * list Condition)
}.

Definition Store_get (name : string) (s : Store) : (error + NodePool) * Store :=
  match st_pools s !! name with
  | Some (version, conditions) =>
      (inr {| np_Name := name;
              np_ResourceVersion := version;
              np_Conditions := conditions |}, s)
  | None => (inl ErrNotFound, s)
  end.

Definition Store_patch (obj stored : NodePool) (optimisticLock : bool) (s : Store)
  : option error * Store :=
  match st_pools s !! np_Name obj with
  | None => (Some ErrNotFound, s)
  | Some (version, _) =>
      if optimisticLock && negb (version =? np_ResourceVersion stored) then
        (Some ErrConflict, s)
      else
        (None,
         {| st_now := st_now s;
            st_claims := st_claims s;
            st_pools := <[ np_Name obj := (version + 1, np_Conditions obj) ]> (st_pools s) |})
  end.

Definition Store_delete (nc : NodeClaim) (s : Store) : option error * Store :=
  if decide (nc_Name nc ∈ st_claims s) then
    (None,
     {| st_now := st_now s;
        st_claims := st_claims s ∖ {[ nc_Name nc ]};
        st_pools := st_pools s |})
  else (Some ErrNotFound, s).

#[export] Instance Store_Collaborators : Collaborators Store := {|
  clock_Now s := (st_now s, s);
  kube_Get := Store_get;
  kube_StatusPatch := Store_patch;
  kube_Delete := Store_delete
|}.

(** The store at a later reading of the clock. *)
Definition at_time (t : time.Time) (s : Store) : Store :=
  {| st_now := t; st_claims := st_claims s; st_pools := st_pools s |}.

(** ** A client with fixed answers *)

(** A stand-in for the collaborators whose answers are fixed in advance, as
    a fake client in a test gives them.  It stands for a store that other
    writers change between two calls (the conditional write conflicts) or
    that keeps a deleted claim while its finalizers run (deleting again
    succeeds again). *)
Record Script := {
  sc_now : time.Time;
  sc_pool : error + NodePool;
  sc_patch : option error;
  sc_delete : option error
}.

#[export] Instance Script_Collaborators : Collaborators Script := {|
  clock_Now s := (sc_now s, s);
  kube_Get _ s := (sc_pool s, s);
  kube_StatusPatch _ _ _ s := (sc_patch s, s);
  kube_Delete _ s := (sc_delete s, s)
|}.

(** ** Sample objects *)

Module Sample.

Definition cond (t : string) (st : ConditionStatus) (r m : string) (at_ : time.Time)
  : Condition :=
  {| Type_ := t; Status := st; Reason := r; Message := m; LastTransitionTime := at_ |}.

Definition labels : gmap string string :=
  {[ NodePoolLabelKey := "default"; CapacityTypeLabelKey := "spot" ]}.

Definition claim (cs : list Condition) : NodeClaim :=
  {| nc_Name := "claim-a"; nc_Labels := labels; nc_Conditions := cs |}.

Definition pool (cs : list Condition) : NodePool :=
  {| np_Name := "default"; np_ResourceVersion := 7; np_Conditions := cs |}.

Definition store (now : time.Time) (present : bool) (cs : list Condition) : Store :=
  {| st_now := now;
     st_claims := if present then {[ "claim-a" ]} else ∅;
     st_pools := {[ "default" := (7, cs) ]} |}.

Definition minutes (n : Z) : time.Time := n * time.Minute.

(** Registered has gone True while Launched was never observed. *)
Definition registered_only : NodeClaim :=
  claim [cond ConditionTypeRegistered ConditionTrue "Registered" "" 0].

(** Registered is True, Launched is still not True. *)
Definition registered_not_launched : NodeClaim :=
  claim [cond ConditionTypeLaunched ConditionUnknown "LaunchFailed" "no capacity" 0;
         cond ConditionTypeRegistered ConditionTrue "Registered" "" 0].

(** Nothing observed yet. *)
Definition fresh : NodeClaim := claim [].

(** Launch failed at the origin; Registered is Unknown since then. *)
Definition launch_failed : NodeClaim :=
  claim [cond ConditionTypeLaunched ConditionUnknown "LaunchFailed" "no capacity" 0;
         cond ConditionTypeRegistered ConditionUnknown "AwaitingReconciliation" "" 0].

(** Launched at the origin, waiting for the node to register. *)
Definition launched : NodeClaim :=
  claim [cond ConditionTypeLaunched ConditionTrue "Launched" "" 0;
         cond ConditionTypeRegistered ConditionUnknown "AwaitingReconciliation" "" 0].

(** As [launched], without the label of an owning pool. *)
Definition orphan : NodeClaim :=
  {| nc_Name := "claim-a";
     nc_Labels := {[ CapacityTypeLabelKey := "spot" ]};
     nc_Conditions := nc_Conditions launched |}.

(** The Launched condition carries a transition time more than 2^63
    nanoseconds ahead of the origin. *)
Definition launch_far_ahead : NodeClaim :=
  claim [cond ConditionTypeLaunched ConditionUnknown "LaunchFailed" "no capacity" (2 ^ 63 + 1)].

Definition health (st : ConditionStatus) : list Condition :=
  [cond ConditionTypeNodeRegistrationHealthy st "" "" 0].

(** Twenty minutes after the origin; the pool is undecided or decided as
    [st] says; [written] and [deleted] are the store's answers. *)
Definition script (st : ConditionStatus) (written deleted : option error) : Script :=
  {| sc_now := minutes 20;
     sc_pool := inr (pool (health st));
     sc_patch := written;
     sc_delete := deleted |}.

End Sample.

(** ** Reading an invocation *)

Definition result_of {W A} (x : outcome A * W * list Event) : outcome A := x.1.1.
Definition world_of {W A} (x : outcome A * W * list Event) : W := x.1.2.
Definition trace_of {W A} (x : outcome A * W * list Event) : list Event := x.2.

(** The three results without an error. *)
Definition done : outcome (Result * option error) := Value (Result_zero, None).
Definition requeue_immediately : outcome (Result * option error) :=
  Value (Result_requeue, None).
Definition requeue_after (d : time.Duration) : outcome (Result * option error) :=
  Value (Result_after d, None).

Definition is_delete (e : Event) : bool :=
  match e with EvDelete _ _ => true | _ => false end.

Definition is_patch (e : Event) : bool :=
  match e with EvStatusPatch _ _ _ _ => true | _ => false end.

Definition is_pool_call (e : Event) : bool :=
  match e with EvStatusPatch _ _ _ _ | EvGet _ _ => true | _ => false end.

Definition is_inc (e : Event) : bool :=
  match e with EvMetricInc _ _ _ => true | _ => false end.

(** How often a kind of call occurs in a trace. *)
Definition count (p : Event → bool) (tr : list Event) : nat :=
  length (List.filter p tr).

(** What a timed-out deletion leaves in the trace: the delete and, when the
    store accepted it, the log line and the counter increment carrying the
    timeout's reason and the claim's pool and capacity type. *)
Definition deletion (timeout : NodeClaimTimeout) (nc : NodeClaim) (r : option error)
  : list Event :=
  EvDelete nc r ::
  match r with
  | None =>
      [ EvLog (duration timeout) (reason timeout);
        EvMetricInc (reason timeout)
          (label (nc_Labels nc) NodePoolLabelKey)
          (label (nc_Labels nc) CapacityTypeLabelKey) ]
  | Some _ => []
  end.

(** What [Reconcile] returns after a delete answered [r]. *)
Definition after_delete (r : option error) : outcome (Result * option error) :=
  match r with
  | None | Some ErrNotFound => done
  | Some e => Value (Result_zero, Some e)
  end.

(** The conditions [Reconcile] looks at. *)
Definition registered_of (nc : NodeClaim) : option Condition :=
  ConditionSet_Get (nc_Conditions nc) ConditionTypeRegistered.
Definition launched_of (nc : NodeClaim) : option Condition :=
  ConditionSet_Get (nc_Conditions nc) ConditionTypeLaunched.
Definition health_of (np : NodePool) : option Condition :=
  ConditionSet_Get (np_Conditions np) ConditionTypeNodeRegistrationHealthy.

(** ** Properties of traces *)

(** A delete the store accepted. *)
Definition is_deleted (e : Event) : bool :=
  match e with EvDelete _ None => true | _ => false end.

(** A delete answered NotFound ends the invocation, with result [out = done]. *)
Fixpoint notfound_final (out : outcome (Result * option error)) (tr : list Event) : Prop :=
  match tr with
  | [] => True
  | EvDelete _ (Some ErrNotFound) :: rest => rest = [] ∧ out = done
  | _ :: rest => notfound_final out rest
  end.

(** A conflicting conditional write ends the invocation, with an immediate
    requeue. *)
Fixpoint conflict_final (out : outcome (Result * option error)) (tr : list Event) : Prop :=
  match tr with
  | [] => True
  | EvStatusPatch _ _ _ (Some ErrConflict) :: rest => rest = [] ∧ out = requeue_immediately
  | _ :: rest => conflict_final out rest
  end.

(** The counter moves exactly with the successful deletes: each delete of
    [nc] the store accepted is followed at once by one log line and one
    increment, carrying one and the same reason and the labels of [nc], and
    no increment stands anywhere else. *)
Fixpoint counted_with_deletes (nc : NodeClaim) (tr : list Event) : Prop :=
  match tr with
  | [] => True
  | EvDelete nc' None :: rest =>
      match rest with
      | EvLog _ r :: EvMetricInc r' pool capacity :: rest' =>
          nc' = nc ∧ r' = r ∧
          (r = launchTimeoutReason ∨ r = registrationTimeoutReason) ∧
          pool = label (nc_Labels nc) NodePoolLabelKey ∧
          capacity = label (nc_Labels nc) CapacityTypeLabelKey ∧
          counted_with_deletes nc rest'
      | _ => False
      end
  | EvMetricInc _ _ _ :: _ => False
  | _ :: rest => counted_with_deletes nc rest
  end.

(** Every conditional write found the pool condition not yet decided
    ([IsUnknown]), leaves it False, and is guarded by the optimistic lock. *)
Definition unknown_to_false (e : Event) : Prop :=
  match e with
  | EvStatusPatch obj stored lock _ =>
      IsUnknown (health_of stored) = true ∧ IsFalse (health_of obj) = true ∧ lock = true
  | _ => True
  end.

(** A pool read that finds the condition already True or False is followed
    by the registration-timeout deletion and nothing else. *)
Fixpoint decided_then_deleted (nc : NodeClaim) (tr : list Event) : Prop :=
  match tr with
  | [] => True
  | EvGet _ (inr np) :: rest =>
      (IsUnknown (health_of np) = false →
       ∃ r, rest = deletion RegistrationTimeout nc r) ∧
      decided_then_deleted nc rest
  | _ :: rest => decided_then_deleted nc rest
  end.

(** No delete of a claim named as [nc] was accepted. *)
Definition not_deleted (nc : NodeClaim) (e : Event) : Prop :=
  match e with
  | EvDelete nc' None => nc_Name nc' ≠ nc_Name nc
  | _ => True
  end.

(** The store calls that change something: deletes of [nc] only, and
    conditional status writes to a pool. *)
Definition mutation_allowed (nc : NodeClaim) (e : Event) : Prop :=
  match e with
  | EvDelete nc' _ => nc' = nc
  | EvStatusPatch _ _ lock _ => lock = true
  | _ => True
  end.

(** ** The paths of one invocation *)

(** Reason and message the pool condition is given: generic when the claim
    launched, those of the Launched condition otherwise. *)
Definition failure_of (launchCondition : Condition) : string * string :=
  if IsTrue (Some launchCondition) then ("RegistrationFailed", "Failed to register node")
  else (Reason launchCondition, Message launchCondition).

(** What the propagation step can do: its return value and its calls. *)
Inductive propagation (nc : NodeClaim) : outcome (option error) → list Event → Prop :=
| prop_no_pool :
    label (nc_Labels nc) NodePoolLabelKey = "" →
    propagation nc (Value None) []
| prop_get_failed e :
    label (nc_Labels nc) NodePoolLabelKey ≠ "" →
    propagation nc (Value (Some e))
      [EvGet (label (nc_Labels nc) NodePoolLabelKey) (inl e)]
| prop_decided np :
    label (nc_Labels nc) NodePoolLabelKey ≠ "" →
    IsUnknown (health_of np) = false →
    propagation nc (Value None)
      [EvGet (label (nc_Labels nc) NodePoolLabelKey) (inr np)]
| prop_written np c r :
    label (nc_Labels nc) NodePoolLabelKey ≠ "" →
    IsUnknown (health_of np) = true →
    launched_of nc = Some c →
    propagation nc (Value (IgnoreNotFound r))
      [EvGet (label (nc_Labels nc) NodePoolLabelKey) (inr np);
       EvStatusPatch
         (NodePool_SetFalse np ConditionTypeNodeRegistrationHealthy
            (failure_of c).1 (failure_of c).2)
         np true r]
| prop_nil_launched np :
    label (nc_Labels nc) NodePoolLabelKey ≠ "" →
    IsUnknown (health_of np) = true →
    launched_of nc = None →
    propagation nc Panic
      [EvGet (label (nc_Labels nc) NodePoolLabelKey) (inr np)].

(** What the statements from [if registered == nil] on can do. *)
Inductive registration (nc : NodeClaim)
  : outcome (Result * option error) → list Event → Prop :=
| reg_absent :
    registered_of nc = None →
    registration nc requeue_immediately []
| reg_waiting c d :
    registered_of nc = Some c →
    0 < time.sub registrationTimeout d →
    registration nc (requeue_after (time.sub registrationTimeout d))
      [EvSince (LastTransitionTime c) d]
| reg_conflict c d tr :
    registered_of nc = Some c →
    time.sub registrationTimeout d ≤ 0 →
    propagation nc (Value (Some ErrConflict)) tr →
    registration nc requeue_immediately (EvSince (LastTransitionTime c) d :: tr)
| reg_failed c d tr msg :
    registered_of nc = Some c →
    time.sub registrationTimeout d ≤ 0 →
    propagation nc (Value (Some (ErrOther msg))) tr →
    registration nc (Value (Result_zero, Some (ErrOther msg)))
      (EvSince (LastTransitionTime c) d :: tr)
| reg_panicked c d tr :
    registered_of nc = Some c →
    time.sub registrationTimeout d ≤ 0 →
    propagation nc Panic tr →
    registration nc Panic (EvSince (LastTransitionTime c) d :: tr)
| reg_deleted c d tr err r :
    registered_of nc = Some c →
    time.sub registrationTimeout d ≤ 0 →
    propagation nc (Value err) tr →
    IgnoreNotFound err = None →
    registration nc (after_delete r)
      (EvSince (LastTransitionTime c) d :: tr ++ deletion RegistrationTimeout nc r).

(** What [Reconcile] can do. *)
Inductive reconciled (nc : NodeClaim)
  : outcome (Result * option error) → list Event → Prop :=
| rec_registered :
    IsTrue (registered_of nc) = true →
    reconciled nc done []
| rec_unlaunched :
    IsTrue (registered_of nc) = false →
    launched_of nc = None →
    reconciled nc requeue_immediately []
| rec_launch_waiting c d :
    IsTrue (registered_of nc) = false →
    launched_of nc = Some c → IsTrue (Some c) = false →
    0 < time.sub launchTimeout d →
    reconciled nc (requeue_after (time.sub launchTimeout d))
      [EvSince (LastTransitionTime c) d]
| rec_launch_delete_failed c d e :
    IsTrue (registered_of nc) = false →
    launched_of nc = Some c → IsTrue (Some c) = false →
    time.sub launchTimeout d ≤ 0 →
    reconciled nc (after_delete (Some e))
      (EvSince (LastTransitionTime c) d :: deletion LaunchTimeout nc (Some e))
| rec_launch_deleted c d out tr :
    IsTrue (registered_of nc) = false →
    launched_of nc = Some c → IsTrue (Some c) = false →
    time.sub launchTimeout d ≤ 0 →
    registration nc out tr →
    reconciled nc out
      (EvSince (LastTransitionTime c) d :: deletion LaunchTimeout nc None ++ tr)
| rec_launched c out tr :
    IsTrue (registered_of nc) = false →
    launched_of nc = Some c → IsTrue (Some c) = true →
    registration nc out tr →
    reconciled nc out tr.

(** ** Relations kept by an invocation *)

Section Invariants.
Context {W : Type} `{Collaborators W}.

(** [m] keeps the relation [R] between the world and the trace. *)
Definition preserves {A} (R : W → list Event → Prop) (m : M W A) : Prop :=
  ∀ w tr, R w tr → R (m w tr).1.2 (m w tr).2.

(** [R] survives every call to a collaborator. *)
Record stable (R : W → list Event → Prop) : Prop := {
  stable_Since : ∀ t, preserves R (Since t);
  stable_Get : ∀ name, preserves R (Get name);
  stable_StatusPatch : ∀ obj stored lock, preserves R (StatusPatch obj stored lock);
  stable_Delete : ∀ nc, preserves R (Delete nc);
  stable_LogInfo : ∀ d r, preserves R (LogInfo d r);
  stable_MetricInc : ∀ r p c, preserves R (MetricInc r p c)
}.

End Invariants.

(** ** Words of the claims *)

(** The write carries the reason and message derived from the claim: it
    sets the health condition of the pool just read to False, with the
    generic reason when the claim launched and with the reason and message
    of the Launched condition otherwise. *)
Definition derived_reason (nc : NodeClaim) (e : Event) : Prop :=
  match e with
  | EvStatusPatch obj stored _ _ =>
      ∃ c, launched_of nc = Some c ∧
        ((IsTrue (Some c) = true ∧
          obj = NodePool_SetFalse stored ConditionTypeNodeRegistrationHealthy
                  "RegistrationFailed" "Failed to register node") ∨
         (IsTrue (Some c) = false ∧
          obj = NodePool_SetFalse stored ConditionTypeNodeRegistrationHealthy
                  (Reason c) (Message c)))
  | _ => True
  end.

(** A claim in a timed-out condition state at the instant [now]: not
    registered, and either not launched with the launch timeout elapsed or
    launched with the registration timeout elapsed. *)
Definition timed_out (nc : NodeClaim) (now : time.Time) : Prop :=
  IsTrue (registered_of nc) = false ∧
  ∃ c, launched_of nc = Some c ∧
    ((IsTrue (Some c) = false ∧
      launchTimeout ≤ time.Time_Sub now (LastTransitionTime c)) ∨
     (IsTrue (Some c) = true ∧
      ∃ reg, registered_of nc = Some reg ∧
        registrationTimeout ≤ time.Time_Sub now (LastTransitionTime reg))).

(** ** Further properties of traces *)

Definition is_since (e : Event) : bool :=
  match e with EvSince _ _ => true | _ => false end.

Definition is_get (e : Event) : bool :=
  match e with EvGet _ _ => true | _ => false end.

Definition is_log (e : Event) : bool :=
  match e with EvLog _ _ => true | _ => false end.

(** A call to the store, of any kind. *)
Definition is_store_call (e : Event) : bool := is_delete e || is_pool_call e.

(** What a failed call to the store makes of the invocation: [Some out]
    when it ends the invocation with [out], [None] when the invocation goes
    on (a pool that is not found).  A conflict on the pool, read or write,
    is an immediate requeue; no other error is touched, whereas on the
    delete NotFound is done and every other error, a conflict too, goes
    back to the caller. *)
Definition verdict_of (e : Event) : option (outcome (Result * option error)) :=
  match e with
  | EvGet _ (inl ErrNotFound) => None
  | EvGet _ (inl ErrConflict) => Some requeue_immediately
  | EvGet _ (inl err) => Some (Value (Result_zero, Some err))
  | EvStatusPatch _ _ _ (Some ErrNotFound) => None
  | EvStatusPatch _ _ _ (Some ErrConflict) => Some requeue_immediately
  | EvStatusPatch _ _ _ (Some err) => Some (Value (Result_zero, Some err))
  | EvDelete _ (Some ErrNotFound) => Some done
  | EvDelete _ (Some err) => Some (Value (Result_zero, Some err))
  | _ => None
  end.

(** Every failed call that has a verdict is the last call, and its verdict
    is the result. *)
Fixpoint error_policy (out : outcome (Result * option error)) (tr : list Event) : Prop :=
  match tr with
  | [] => True
  | e :: rest =>
      match verdict_of e with
      | Some v => rest = [] ∧ out = v
      | None => error_policy out rest
      end
  end.

(** A returned error comes with the zero result, is not NotFound, and is
    the answer of the last call of the trace. *)
Definition error_is_last_answer (out : outcome (Result * option error)) (tr : list Event)
  : Prop :=
  match out with
  | Value (r, Some err) =>
      r = Result_zero ∧ err ≠ ErrNotFound ∧
      ∃ e, last tr = Some e ∧ verdict_of e = Some out
  | _ => True
  end.

(** The pool step that did not fail (the pool is not found at the read or
    at the write, or the write is done) is followed by the
    registration-timeout deletion and nothing else. *)
Fixpoint pool_step_then_deleted (nc : NodeClaim) (tr : list Event) : Prop :=
  match tr with
  | [] => True
  | EvGet _ (inl ErrNotFound) :: rest =>
      (∃ r, rest = deletion RegistrationTimeout nc r) ∧ pool_step_then_deleted nc rest
  | EvStatusPatch _ _ _ written :: rest =>
      (IgnoreNotFound written = None → ∃ r, rest = deletion RegistrationTimeout nc r) ∧
      pool_step_then_deleted nc rest
  | _ :: rest => pool_step_then_deleted nc rest
  end.

(** Reads and writes of the pool go together: a read asks for the pool
    named by the claim's label, which is not empty; a write comes right
    after a read that found the pool, takes what was read as the stored
    object, keeps its name and version, and holds the optimistic lock. *)
Fixpoint read_modify_write (nc : NodeClaim) (tr : list Event) : Prop :=
  match tr with
  | [] => True
  | EvGet name r :: rest =>
      name = label (nc_Labels nc) NodePoolLabelKey ∧ name ≠ "" ∧
      match rest with
      | EvStatusPatch obj stored lock _ :: rest' =>
          r = inr stored ∧ np_Name obj = np_Name stored ∧
          np_ResourceVersion obj = np_ResourceVersion stored ∧ lock = true ∧
          read_modify_write nc rest'
      | _ => read_modify_write nc rest
      end
  | EvStatusPatch _ _ _ _ :: _ => False
  | _ :: rest => read_modify_write nc rest
  end.

(** The shape of a result: with an error the result is zero; without one it
    is zero, an immediate requeue, or a requeue after the positive time that
    the last reading of the clock left of one of the two timeouts. *)
Definition result_shape (out : outcome (Result * option error)) (tr : list Event) : Prop :=
  match out with
  | Panic => False
  | Value (r, Some _) => r = Result_zero
  | Value (r, None) =>
      r = Result_zero ∨ r = Result_requeue ∨
      ∃ t d timeout,
        last tr = Some (EvSince t d) ∧
        (timeout = launchTimeout ∨ timeout = registrationTimeout) ∧
        r = Result_after (time.sub timeout d) ∧
        0 < time.sub timeout d ≤ time.maxDuration
  end.

(** A pool whose health condition is decided, True or False. *)
Definition decided (conditions : list Condition) : Prop :=
  IsUnknown (ConditionSet_Get conditions ConditionTypeNodeRegistrationHealthy) = false.

(** The timeout of the stage a claim is in: the registration timeout once
    the claim launched, the launch timeout before. *)
Definition stage_timeout (nc : NodeClaim) : time.Duration :=
  if IsTrue (launched_of nc) then registrationTimeout else launchTimeout.

(** The first thing an invocation does, if it does anything, is to read the
    clock; it goes on to anything else only when that reading leaves
    nothing of the timeout of the claim's stage. *)
Definition acts_after_expiry (nc : NodeClaim) (tr : list Event) : Prop :=
  match tr with
  | [] => True
  | EvSince _ d :: rest => rest = [] ∨ time.sub (stage_timeout nc) d ≤ 0
  | _ :: _ => False
  end.

(** What an invocation for the claim [nc] leaves of the pools of the
    reference store: a pool whose condition is decided, and a pool other
    than the one the claim's label names, is as it was. *)
Definition pools_kept (nc : NodeClaim) (s s' : Store) : Prop :=
  ∀ k v cs,
    st_pools s !! k = Some (v, cs) →
    decided cs ∨ k ≠ label (nc_Labels nc) NodePoolLabelKey →
    st_pools s' !! k = Some (v, cs).

(** What the propagation step, taken alone, returns.  It neither reads the
    clock nor deletes nor counts.  It returns NotFound only when the read
    of the pool was answered so (at the write NotFound is swallowed); any
    other error it returns is the answer of its last call, the read or the
    write; it panics only on a claim without a Launched condition; and
    without a pool label it returns nil and calls nothing. *)
Definition propagation_return (nc : NodeClaim) (out : outcome (option error))
    (tr : list Event) : Prop :=
  count is_since tr = 0%nat ∧ count is_delete tr = 0%nat ∧ count is_inc tr = 0%nat ∧
  (count is_patch tr ≤ count is_get tr ≤ 1)%nat ∧
  match out with
  | Value None => True
  | Value (Some ErrNotFound) =>
      tr = [EvGet (label (nc_Labels nc) NodePoolLabelKey) (inl ErrNotFound)]
  | Value (Some err) =>
      ∃ e, last tr = Some e ∧
        (e = EvGet (label (nc_Labels nc) NodePoolLabelKey) (inl err) ∨
         ∃ obj stored, e = EvStatusPatch obj stored true (Some err))
  | Panic => launched_of nc = None
  end ∧
  (label (nc_Labels nc) NodePoolLabelKey = "" → out = Value None ∧ tr = []).

(** * Properties *)

(** ** Arithmetic of durations *)

Lemma wrap64_small (z : Z) : - 2 ^ 63 ≤ z < 2 ^ 63 → time.wrap64 z = z.
Proof.
  intros Hz. unfold time.wrap64.
  rewrite Z.mod_small by lia. lia.
Qed.

Lemma Time_Sub_range (t u : time.Time) :
  time.minDuration ≤ time.Time_Sub t u ≤ time.maxDuration.
Proof.
  unfold time.Time_Sub, time.minDuration, time.maxDuration.
  repeat case_match; lia.
Qed.

Lemma Time_Sub_mono (t t' u : time.Time) :
  t ≤ t' → time.Time_Sub t u ≤ time.Time_Sub t' u.
Proof.
  unfold time.Time_Sub, time.minDuration, time.maxDuration.
  intros Ht. repeat case_match; lia.
Qed.

Lemma launchTimeout_eq : launchTimeout = 300000000000.
Proof. reflexivity. Qed.

Lemma registrationTimeout_eq : registrationTimeout = 900000000000.
Proof. reflexivity. Qed.

(** Inside the window the remaining time is positive, provided the
    subtraction stays within 64 bits. *)
Lemma remaining_positive (timeout d : time.Duration) :
  timeout - 2 ^ 63 < d → d < timeout →
  time.sub timeout d = timeout - d ∧ (0 <? time.sub timeout d) = true.
Proof.
  intros Hlo Hhi. unfold time.sub.
  rewrite wrap64_small by lia. split; [done | lia].
Qed.

(** Past the timeout the remaining time is not positive: an elapsed time is
    at most the greatest duration, so the subtraction cannot wrap. *)
Lemma remaining_expired (timeout d : time.Duration) :
  0 ≤ timeout → timeout ≤ d → d ≤ time.maxDuration →
  (0 <? time.sub timeout d) = false.
Proof.
  unfold time.maxDuration, time.sub. intros H0 Hge Hmax.
  rewrite wrap64_small by lia. lia.
Qed.

Lemma expired_at (timeout : time.Duration) (now t : time.Time) :
  0 ≤ timeout → timeout ≤ time.Time_Sub now t →
  (0 <? time.sub timeout (time.Time_Sub now t)) = false.
Proof.
  intros H0 Hge. apply remaining_expired; [done | done |].
  apply Time_Sub_range.
Qed.

(** A timed-out condition state stays timed out as the clock moves on. *)
Lemma timed_out_later (nc : NodeClaim) (now later : time.Time) :
  now ≤ later → timed_out nc now → timed_out nc later.
Proof.
  intros Hle (Hreg & c & Hl & Hstage). split; [done |]. exists c. split; [done |].
  destruct Hstage as [(Hnt & Hexp) | (Ht & reg & Hr & Hexp)].
  - left. split; [done |].
    etrans; [exact Hexp | by apply Time_Sub_mono].
  - right. split; [done |]. exists reg. split; [done |].
    etrans; [exact Hexp | by apply Time_Sub_mono].
Qed.

(** ** Auxiliary facts *)

#[local] Arguments IsTrue : simpl never.
#[local] Arguments IsUnknown : simpl never.
#[local] Arguments IsFalse : simpl never.
#[local] Arguments ConditionSet_Get : simpl never.
#[local] Arguments NodePool_SetFalse : simpl never.
#[local] Arguments label : simpl never.
#[local] Arguments String.eqb : simpl never.
#[local] Arguments time.sub : simpl never.
#[local] Arguments time.Time_Sub : simpl never.
#[local] Arguments Z.ltb : simpl never.

(** After [SetFalse] the condition is there, False, with the reason and the
    message given. *)
Lemma health_of_SetFalse (np : NodePool) (r m : string) :
  health_of (NodePool_SetFalse np ConditionTypeNodeRegistrationHealthy r m) =
  Some {| Type_ := ConditionTypeNodeRegistrationHealthy; Status := ConditionFalse;
          Reason := r; Message := m;
          LastTransitionTime :=
            match health_of np with
            | Some c => LastTransitionTime c
            | None => 0
            end |}.
Proof.
  unfold health_of, NodePool_SetFalse, ConditionSet_SetFalse; cbn [np_Conditions].
  generalize (match ConditionSet_Get (np_Conditions np)
                      ConditionTypeNodeRegistrationHealthy with
              | Some c => LastTransitionTime c
              | None => 0
              end).
  intros t. unfold ConditionSet_Get.
  induction (np_Conditions np) as [|c cs IH]; [done |].
  cbn [List.filter]. destruct (String.eqb (Type_ c) _) eqn:E; cbn [negb]; [done |].
  cbn [app List.find]. by rewrite E.
Qed.

(** ** Facts about the paths *)

Ltac paths :=
  repeat match goal with
    | H : reconciled _ _ _ |- _ => inversion H; clear H; subst
    | H : registration _ _ _ |- _ => inversion H; clear H; subst
    | H : propagation _ _ _ |- _ => inversion H; clear H; subst
    end.

Ltac answers :=
  repeat match goal with
    | r : option error |- _ => destruct r as [[]|]
    | e : error |- _ => destruct e
    end.

Lemma reconciled_no_panic nc out tr : reconciled nc out tr → out ≠ Panic.
Proof. intros Hp; paths; answers; try done; congruence. Qed.

Lemma reconciled_notfound_final nc out tr :
  reconciled nc out tr → notfound_final out tr.
Proof. intros Hp; paths; answers; cbn; auto; done. Qed.

Lemma reconciled_conflict_final nc out tr :
  reconciled nc out tr → conflict_final out tr.
Proof. intros Hp; paths; answers; cbn; auto; done. Qed.

Lemma reconciled_counted nc out tr :
  reconciled nc out tr →
  counted_with_deletes nc tr ∧ count is_inc tr = count is_deleted tr.
Proof. intros Hp; paths; answers; cbn; repeat split; auto; done. Qed.

Lemma reconciled_unknown_to_false nc out tr :
  reconciled nc out tr → Forall unknown_to_false tr.
Proof.
  intros Hp; paths; answers; cbn; repeat constructor; try done.
  all: by rewrite health_of_SetFalse.
Qed.

Lemma reconciled_derived_reason nc out tr :
  reconciled nc out tr → Forall (derived_reason nc) tr.
Proof.
  intros Hp; paths; simplify_eq; answers; cbn; repeat constructor; try done.
  all: eexists; split; [eassumption |]; unfold failure_of;
    destruct (IsTrue (Some _)) eqn:Ht; cbn [fst snd]; auto; congruence.
Qed.

Lemma reconciled_decided_then_deleted nc out tr :
  reconciled nc out tr → decided_then_deleted nc tr.
Proof.
  intros Hp; paths; answers; cbn; repeat split; auto; try congruence; eauto.
Qed.

Lemma reconciled_no_pool_without_label nc out tr :
  reconciled nc out tr →
  label (nc_Labels nc) NodePoolLabelKey = "" → count is_pool_call tr = 0%nat.
Proof. intros Hp Hl; paths; answers; cbn; try done. Qed.

(** The frame of an invocation: the calls that change the store are deletes
    of the claim itself and lock-guarded status writes to a pool, at most
    one write, at most two deletes, and at most one delete for a claim that
    launched. *)
Lemma reconciled_frame nc out tr :
  reconciled nc out tr →
  Forall (mutation_allowed nc) tr ∧
  (count is_patch tr ≤ 1)%nat ∧
  (count is_delete tr ≤ 2)%nat ∧
  (IsTrue (launched_of nc) = true → (count is_delete tr ≤ 1)%nat).
Proof.
  intros Hp; paths; answers; cbn; repeat split; repeat constructor;
    try done; try lia; congruence.
Qed.

(** A conflicting write is never followed by anything, and for a claim that
    launched no delete precedes it either. *)
Lemma reconciled_conflict_no_delete nc out tr obj stored lock :
  reconciled nc out tr →
  IsTrue (launched_of nc) = true →
  In (EvStatusPatch obj stored lock (Some ErrConflict)) tr →
  out = requeue_immediately ∧ count is_delete tr = 0%nat.
Proof.
  intros Hp Hl Hin; paths; answers; cbn in *; try congruence;
    intuition (try discriminate; try congruence).
Qed.

Section Reconciler.
Context {W : Type} `{Collaborators W}.

(** C4.  A claim whose Registered condition is True is left alone: the
    result is done, without an error, and no call at all leaves the
    reconciler (no delete, no pool read or write), whatever the Launched
    condition is and whether it is there. *)
Theorem registered_true_done (w : W) (nc : NodeClaim) :
  IsTrue (registered_of nc) = true →
  run (Reconcile nc) w = (done, w, []).
Proof.
  intros Hreg. unfold run, Reconcile, registered_of in *.
  rewrite Hreg. reflexivity.
Qed.

(** C5, amended.  When the condition a claim waits for has not been
    observed — Launched absent and Registered not True, or Launched True
    and Registered absent — the result is an immediate requeue without an
    error and no call leaves the reconciler: the clock is not even read,
    so no amount of elapsed time changes the outcome. *)
Theorem absent_condition_requeues (w : W) (nc : NodeClaim) :
  (launched_of nc = None ∧ IsTrue (registered_of nc) = false) ∨
  (IsTrue (launched_of nc) = true ∧ registered_of nc = None) →
  run (Reconcile nc) w = (requeue_immediately, w, []).
Proof.
  intros [[Hl Hr] | [Hl Hr]]; unfold run, Reconcile, launchStage, registered_of,
    launched_of in *.
  - rewrite Hr, Hl. reflexivity.
  - rewrite Hr.
    destruct (ConditionSet_Get (nc_Conditions nc) ConditionTypeLaunched) as [l|];
      [| discriminate].
    change (IsTrue None) with false. cbv iota. rewrite Hl. reflexivity.
Qed.

(** C6, amended.  While the timer of the stage a claim is in has not run
    out — Registered not True and either Launched present and not True
    (launch timeout), or Launched True and Registered present (registration
    timeout) — and the 64-bit subtraction does not wrap, the result is a
    requeue after exactly the timeout minus the elapsed time, which is
    positive; the only call is the one reading of the clock that produced
    that elapsed time. *)
Theorem inside_window_requeue_after (w w' : W) (nc : NodeClaim) (c : Condition)
    (timeout : time.Duration) (now : time.Time) :
  IsTrue (registered_of nc) = false →
  (launched_of nc = Some c ∧ IsTrue (launched_of nc) = false ∧ timeout = launchTimeout) ∨
  (IsTrue (launched_of nc) = true ∧ registered_of nc = Some c ∧
   timeout = registrationTimeout) →
  clock_Now w = (now, w') →
  timeout - 2 ^ 63 < time.Time_Sub now (LastTransitionTime c) →
  time.Time_Sub now (LastTransitionTime c) < timeout →
  run (Reconcile nc) w =
    (requeue_after (timeout - time.Time_Sub now (LastTransitionTime c)), w',
     [EvSince (LastTransitionTime c) (time.Time_Sub now (LastTransitionTime c))]) ∧
  0 < timeout - time.Time_Sub now (LastTransitionTime c).
Proof.
  intros Hreg Hstage Hnow Hlo Hhi.
  destruct (remaining_positive timeout _ Hlo Hhi) as [Hsub Hpos].
  split; [| lia].
  destruct Hstage as [(Hl & Hnt & ->) | (Hl & Hr & ->)];
    unfold run, Reconcile, launchStage, registrationStage, Since, bind, ret,
      registered_of, launched_of in *.
  - rewrite Hreg, Hl. rewrite Hl in Hnt. rewrite Hnt. simpl.
    rewrite Hnow, Hpos, Hsub. reflexivity.
  - rewrite Hr in *. rewrite Hreg.
    destruct (ConditionSet_Get (nc_Conditions nc) ConditionTypeLaunched) as [l|];
      [| discriminate].
    rewrite Hl. cbn [negb]. rewrite Hnow, Hpos, Hsub. reflexivity.
Qed.

(** *** Every invocation follows one of the paths *)

Lemma deleteNodeClaimForTimeout_run (timeout : NodeClaimTimeout) (nc : NodeClaim)
    (w : W) (tr0 : list Event) :
  deleteNodeClaimForTimeout timeout nc w tr0 =
    (Value (kube_Delete nc w).1, (kube_Delete nc w).2,
     tr0 ++ deletion timeout nc (kube_Delete nc w).1).
Proof.
  unfold deleteNodeClaimForTimeout, Delete, LogInfo, MetricInc, bind, ret, deletion.
  destruct (kube_Delete nc w) as [[e|] w1]; simpl; [done |].
  by rewrite <- !app_assoc.
Qed.

Lemma updateNodePoolRegistrationHealth_run (nc : NodeClaim) (w : W) (tr0 : list Event) :
  ∃ out w' tr,
    updateNodePoolRegistrationHealth nc w tr0 = (out, w', tr0 ++ tr) ∧
    propagation nc out tr.
Proof.
  unfold updateNodePoolRegistrationHealth, Get, StatusPatch, DeepCopy, bind, ret, panic.
  destruct (String.eqb_spec (label (nc_Labels nc) NodePoolLabelKey) "") as [Hl | Hl];
    cbn [negb].
  { exists (Value None), w, []. rewrite app_nil_r. split; [done | by constructor]. }
  destruct (kube_Get _ w) as [[e | np] w1].
  { eexists _, _, [_]. split; [done | by constructor]. }
  destruct (IsUnknown _) eqn:Hu.
  2:{ eexists _, _, [_]. split; [done | by constructor]. }
  destruct (ConditionSet_Get (nc_Conditions nc) ConditionTypeLaunched) as [c|] eqn:Hc.
  2:{ change (IsTrue None) with false. cbv iota.
      eexists _, _, [_]. split; [done | by constructor]. }
  pose proof (prop_written nc np c) as Hw.
  unfold failure_of in Hw.
  destruct (IsTrue (Some c)); cbn [fst snd] in Hw;
    destruct (kube_StatusPatch _ np true w1) as [r w2];
    (exists (Value (IgnoreNotFound r)), w2; eexists [_; _]; split;
     [ rewrite <- app_assoc; by destruct r as [[]|]
     | by apply Hw ]).
Qed.

Lemma registrationStage_run (nc : NodeClaim) (w : W) (tr0 : list Event) :
  ∃ out w' tr,
    registrationStage nc (registered_of nc) w tr0 = (out, w', tr0 ++ tr) ∧
    registration nc out tr.
Proof.
  unfold registrationStage, Since, bind, ret.
  destruct (registered_of nc) as [c|] eqn:Hr.
  2:{ exists requeue_immediately, w, []. rewrite app_nil_r.
      split; [done | by constructor]. }
  destruct (clock_Now w) as [now w1].
  set (d := time.Time_Sub now (LastTransitionTime c)).
  destruct (0 <? time.sub registrationTimeout d) eqn:Hlt.
  { eexists _, _, [_]. split; [done |]. apply reg_waiting; [done | lia]. }
  assert (time.sub registrationTimeout d ≤ 0) as Hexp by lia.
  destruct (updateNodePoolRegistrationHealth_run nc w1
              (tr0 ++ [EvSince (LastTransitionTime c) d]))
    as (out & w2 & tr & -> & Hprop).
  destruct out as [err|].
  2:{ exists Panic, w2, (EvSince (LastTransitionTime c) d :: tr).
      split; [by rewrite <- app_assoc | by apply reg_panicked]. }
  destruct (IgnoreNotFound err) as [e|] eqn:Hi.
  - destruct err as [[| |msg]|]; try discriminate; cbn [IsConflict].
    + exists requeue_immediately, w2, (EvSince (LastTransitionTime c) d :: tr).
      split; [by rewrite <- app_assoc | by apply reg_conflict].
    + eexists _, w2, (EvSince (LastTransitionTime c) d :: tr).
      split; [by rewrite <- app_assoc | by apply reg_failed].
  - rewrite deleteNodeClaimForTimeout_run.
    exists (after_delete (kube_Delete nc w2).1), (kube_Delete nc w2).2,
      (EvSince (LastTransitionTime c) d ::
       tr ++ deletion RegistrationTimeout nc (kube_Delete nc w2).1).
    split.
    + rewrite <- !app_assoc. by destruct (kube_Delete nc w2) as [[[]|] w3].
    + by eapply reg_deleted.
Qed.

(** Whatever the collaborators answer, an invocation of [Reconcile] is one
    of the paths of [reconciled]. *)
Lemma Reconcile_run (nc : NodeClaim) (w : W) :
  reconciled nc (result_of (run (Reconcile nc) w)) (trace_of (run (Reconcile nc) w)).
Proof.
  unfold result_of, trace_of, run, Reconcile.
  fold (registered_of nc). fold (launched_of nc).
  destruct (IsTrue (registered_of nc)) eqn:Hreg; [by constructor |].
  destruct (launched_of nc) as [c|] eqn:Hl; [| by constructor].
  unfold launchStage, Since, bind, ret.
  destruct (IsTrue (Some c)) eqn:Ht; cbn [negb].
  { destruct (registrationStage_run nc w []) as (out & w2 & tr & -> & Hreg').
    destruct out; by eapply rec_launched. }
  destruct (clock_Now w) as [now w1].
  set (d := time.Time_Sub now (LastTransitionTime c)).
  destruct (0 <? time.sub launchTimeout d) eqn:Hlt.
  { cbn. apply rec_launch_waiting; [done | done | done | lia]. }
  assert (time.sub launchTimeout d ≤ 0) as Hexp by lia.
  rewrite deleteNodeClaimForTimeout_run.
  destruct (kube_Delete nc w1) as [[e|] w2]; cbn [fst snd].
  { pose proof (rec_launch_delete_failed nc c d e Hreg Hl Ht Hexp) as Hp.
    by destruct e. }
  destruct (registrationStage_run nc w2
              ([] ++ [EvSince (LastTransitionTime c) d] ++
               deletion LaunchTimeout nc None))
    as (out & w3 & tr & Heq & Hreg').
  cbn [app] in Heq |- *. rewrite Heq.
  pose proof (rec_launch_deleted nc c d out tr Hreg Hl Ht Hexp Hreg') as Hp.
  by destruct out.
Qed.

(** *** The timed-out stages *)

Lemma label_eqb_nonempty (nc : NodeClaim) :
  label (nc_Labels nc) NodePoolLabelKey ≠ "" →
  String.eqb (label (nc_Labels nc) NodePoolLabelKey) "" = false.
Proof. intros Hne. by apply String.eqb_neq. Qed.

(** C1, amended.  For a claim that is not registered, whose Launched
    condition is present and not True, once the launch timeout has
    elapsed: the clock is read once and the claim is deleted, before any
    other call to the store; a delete the store accepted is tagged with
    the launch_timeout reason.  When the store refuses the delete, that
    attempt is the only call to the store (no pool is read or written) and
    the result is done for NotFound and the error otherwise. *)
Theorem launch_timeout_deletes (w w1 : W) (nc : NodeClaim) (c : Condition)
    (now : time.Time) :
  IsTrue (registered_of nc) = false →
  launched_of nc = Some c →
  IsTrue (launched_of nc) = false →
  clock_Now w = (now, w1) →
  launchTimeout ≤ time.Time_Sub now (LastTransitionTime c) →
  ∃ rest,
    trace_of (run (Reconcile nc) w) =
      EvSince (LastTransitionTime c) (time.Time_Sub now (LastTransitionTime c)) ::
      deletion LaunchTimeout nc (kube_Delete nc w1).1 ++ rest ∧
    ((kube_Delete nc w1).1 ≠ None →
     rest = [] ∧
     result_of (run (Reconcile nc) w) = after_delete (kube_Delete nc w1).1 ∧
     world_of (run (Reconcile nc) w) = (kube_Delete nc w1).2).
Proof.
  intros Hreg Hl Hnt Hnow Hexp.
  unfold result_of, world_of, trace_of, run, Reconcile, launchStage, Since, bind, ret.
  unfold registered_of, launched_of in *.
  rewrite Hreg, Hl. rewrite Hl in Hnt. rewrite Hnt. cbn [negb].
  rewrite Hnow, expired_at by (done || by rewrite launchTimeout_eq).
  rewrite deleteNodeClaimForTimeout_run.
  destruct (kube_Delete nc w1) as [[e|] w2]; cbn [fst snd].
  - exists []. rewrite app_nil_r. split; [by destruct e |].
    intros _. by destruct e.
  - destruct (registrationStage_run nc w2
                ([] ++ [EvSince (LastTransitionTime c)
                          (time.Time_Sub now (LastTransitionTime c))] ++
                 deletion LaunchTimeout nc None))
      as (out & w3 & tr & Heq & _).
    unfold registered_of in Heq. cbn [app] in Heq |- *. rewrite Heq.
    exists tr. split; [by destruct out | done].
Qed.

(** C2.  For a claim that launched (Launched True), whose Registered
    condition is present and not True, once the registration timeout has
    elapsed, with an owning pool whose health condition is not yet
    decided: the pool is read, one conditional write guarded by the
    optimistic lock sets its health condition to False with reason
    "RegistrationFailed" and message "Failed to register node", and, the
    write done, the claim is deleted, tagged with the registration_timeout
    reason.  On every path a write carries the generic reason when the
    claim launched and the reason and message of the Launched condition
    otherwise. *)
Theorem registration_timeout_propagates (w w1 w2 w3 : W) (nc : NodeClaim)
    (reg : Condition) (np : NodePool) (now : time.Time) (written : option error) :
  IsTrue (launched_of nc) = true →
  registered_of nc = Some reg →
  IsTrue (registered_of nc) = false →
  clock_Now w = (now, w1) →
  registrationTimeout ≤ time.Time_Sub now (LastTransitionTime reg) →
  label (nc_Labels nc) NodePoolLabelKey ≠ "" →
  kube_Get (label (nc_Labels nc) NodePoolLabelKey) w1 = (inr np, w2) →
  IsUnknown (health_of np) = true →
  kube_StatusPatch
    (NodePool_SetFalse np ConditionTypeNodeRegistrationHealthy
       "RegistrationFailed" "Failed to register node") np true w2 = (written, w3) →
  IgnoreNotFound written = None →
  run (Reconcile nc) w =
    (after_delete (kube_Delete nc w3).1, (kube_Delete nc w3).2,
     [ EvSince (LastTransitionTime reg) (time.Time_Sub now (LastTransitionTime reg));
       EvGet (label (nc_Labels nc) NodePoolLabelKey) (inr np);
       EvStatusPatch
         (NodePool_SetFalse np ConditionTypeNodeRegistrationHealthy
            "RegistrationFailed" "Failed to register node") np true written ] ++
     deletion RegistrationTimeout nc (kube_Delete nc w3).1) ∧
  count is_patch (trace_of (run (Reconcile nc) w)) = 1%nat ∧
  (∃ c, health_of (NodePool_SetFalse np ConditionTypeNodeRegistrationHealthy
                     "RegistrationFailed" "Failed to register node") = Some c ∧
        Status c = ConditionFalse ∧
        Reason c = "RegistrationFailed" ∧ Message c = "Failed to register node") ∧
  ∀ (nc' : NodeClaim) (w' : W),
    Forall (derived_reason nc') (trace_of (run (Reconcile nc') w')).
Proof.
  intros Hl Hr Hnt Hnow Hexp Hlabel Hget Hunk Hpatch Hwritten.
  assert (run (Reconcile nc) w =
    (after_delete (kube_Delete nc w3).1, (kube_Delete nc w3).2,
     [ EvSince (LastTransitionTime reg) (time.Time_Sub now (LastTransitionTime reg));
       EvGet (label (nc_Labels nc) NodePoolLabelKey) (inr np);
       EvStatusPatch
         (NodePool_SetFalse np ConditionTypeNodeRegistrationHealthy
            "RegistrationFailed" "Failed to register node") np true written ] ++
     deletion RegistrationTimeout nc (kube_Delete nc w3).1)) as Hrun.
  { unfold run, Reconcile, launchStage, registrationStage,
      updateNodePoolRegistrationHealth, Since, Get, StatusPatch, DeepCopy, bind, ret.
    unfold registered_of, launched_of, health_of in *.
    rewrite Hnt. rewrite Hr.
    destruct (ConditionSet_Get (nc_Conditions nc) ConditionTypeLaunched) as [c|];
      [| discriminate].
    rewrite Hl. cbn [negb].
    rewrite Hnow, expired_at by (done || by rewrite registrationTimeout_eq).
    rewrite label_eqb_nonempty by done. cbn [negb].
    rewrite Hget; cbv beta iota. rewrite Hunk; cbv beta iota.
    rewrite Hpatch; cbv beta iota. rewrite Hwritten; cbv beta iota.
    cbn [IgnoreNotFound]; cbv beta iota.
    rewrite deleteNodeClaimForTimeout_run.
    by destruct (kube_Delete nc w3) as [[[]|] w4]. }
  split; [done |]. split; [| split].
  - rewrite Hrun. unfold trace_of, deletion; cbn [snd].
    by destruct (kube_Delete nc w3) as [[e|] w4].
  - rewrite health_of_SetFalse. by eexists.
  - intros nc' w'. eapply reconciled_derived_reason, Reconcile_run.
Qed.

(** C7.  For a claim that launched, whose Registered condition is present
    and not True, once the registration timeout has elapsed: when the
    propagation is skipped — the claim has no pool label, or the pool read
    shows a health condition already True or already False — no write to
    the pool occurs and the claim is deleted all the same, tagged with the
    registration_timeout reason.  On every path: each write to a pool
    finds the condition undecided, leaves it False and is guarded by the
    lock; a pool read that finds the condition decided is followed by the
    deletion and nothing else; a claim without a pool label causes no pool
    call at all. *)
Theorem skipped_propagation_still_deletes (w w1 w2 : W) (nc : NodeClaim)
    (reg : Condition) (now : time.Time) (read : list Event) :
  IsTrue (launched_of nc) = true →
  registered_of nc = Some reg →
  IsTrue (registered_of nc) = false →
  clock_Now w = (now, w1) →
  registrationTimeout ≤ time.Time_Sub now (LastTransitionTime reg) →
  (label (nc_Labels nc) NodePoolLabelKey = "" ∧ w2 = w1 ∧ read = []) ∨
  (∃ np,
     label (nc_Labels nc) NodePoolLabelKey ≠ "" ∧
     kube_Get (label (nc_Labels nc) NodePoolLabelKey) w1 = (inr np, w2) ∧
     IsUnknown (health_of np) = false ∧
     read = [EvGet (label (nc_Labels nc) NodePoolLabelKey) (inr np)]) →
  run (Reconcile nc) w =
    (after_delete (kube_Delete nc w2).1, (kube_Delete nc w2).2,
     EvSince (LastTransitionTime reg) (time.Time_Sub now (LastTransitionTime reg)) ::
     read ++ deletion RegistrationTimeout nc (kube_Delete nc w2).1) ∧
  count is_patch (trace_of (run (Reconcile nc) w)) = 0%nat ∧
  ∀ (nc' : NodeClaim) (w' : W),
    Forall unknown_to_false (trace_of (run (Reconcile nc') w')) ∧
    decided_then_deleted nc' (trace_of (run (Reconcile nc') w')) ∧
    (label (nc_Labels nc') NodePoolLabelKey = "" →
     count is_pool_call (trace_of (run (Reconcile nc') w')) = 0%nat).
Proof.
  intros Hl Hr Hnt Hnow Hexp Hskip.
  assert (run (Reconcile nc) w =
    (after_delete (kube_Delete nc w2).1, (kube_Delete nc w2).2,
     EvSince (LastTransitionTime reg) (time.Time_Sub now (LastTransitionTime reg)) ::
     read ++ deletion RegistrationTimeout nc (kube_Delete nc w2).1)) as Hrun.
  { unfold run, Reconcile, launchStage, registrationStage,
      updateNodePoolRegistrationHealth, Since, Get, DeepCopy, bind, ret.
    unfold registered_of, launched_of, health_of in *.
    rewrite Hnt. rewrite Hr.
    destruct (ConditionSet_Get (nc_Conditions nc) ConditionTypeLaunched) as [c|];
      [| discriminate].
    rewrite Hl. cbn [negb].
    rewrite Hnow, expired_at by (done || by rewrite registrationTimeout_eq).
    destruct Hskip as [(Hnone & -> & ->) | (np & Hsome & Hget & Hdec & ->)].
    - rewrite Hnone. change (String.eqb "" "") with true.
      cbn [negb IgnoreNotFound]. cbv beta iota.
      rewrite deleteNodeClaimForTimeout_run.
      by destruct (kube_Delete nc w1) as [[[]|] w4].
    - rewrite label_eqb_nonempty by done. cbn [negb].
      rewrite Hget; cbv beta iota. rewrite Hdec; cbv beta iota.
      cbn [IgnoreNotFound]; cbv beta iota. rewrite deleteNodeClaimForTimeout_run.
      by destruct (kube_Delete nc w2) as [[[]|] w4]. }
  split; [done |]. split.
  - rewrite Hrun. unfold trace_of, deletion; cbn [snd].
    destruct Hskip as [(_ & _ & ->) | (np & _ & _ & _ & ->)];
      by destruct (kube_Delete nc w2) as [[e|] w4].
  - intros nc' w'. pose proof (Reconcile_run nc' w') as Hp. repeat split.
    + by eapply reconciled_unknown_to_false.
    + by eapply reconciled_decided_then_deleted.
    + by eapply reconciled_no_pool_without_label.
Qed.

(** *** Invariants of the collaborators' world *)

Lemma preserves_ret {A} (R : W → list Event → Prop) (a : A) : preserves R (ret a).
Proof. by intros w tr HR. Qed.

Lemma preserves_panic {A} (R : W → list Event → Prop) : preserves R (@panic W A).
Proof. by intros w tr HR. Qed.

Lemma preserves_bind {A B} (R : W → list Event → Prop) (m : M W A) (k : A → M W B) :
  preserves R m → (∀ a, preserves R (k a)) → preserves R (bind m k).
Proof.
  intros Hm Hk w tr HR. unfold bind.
  specialize (Hm w tr HR).
  destruct (m w tr) as [[[a|] w1] tr1]; cbn [fst snd] in *; [by apply Hk | done].
Qed.

Ltac preserve HS :=
  repeat first
    [ apply preserves_ret
    | apply preserves_panic
    | apply (stable_Since _ HS)
    | apply (stable_Get _ HS)
    | apply (stable_StatusPatch _ HS)
    | apply (stable_Delete _ HS)
    | apply (stable_LogInfo _ HS)
    | apply (stable_MetricInc _ HS)
    | apply preserves_bind; [| intros ? ]
    | case_match ].

Lemma Reconcile_preserves (R : W → list Event → Prop) (nc : NodeClaim) :
  stable R → preserves R (Reconcile nc).
Proof.
  intros HS.
  unfold Reconcile, launchStage, registrationStage, updateNodePoolRegistrationHealth,
    deleteNodeClaimForTimeout.
  preserve HS.
Qed.

End Reconciler.

(** ** The reference store *)

Lemma Store_patch_claims obj stored lock (s : Store) :
  st_claims (Store_patch obj stored lock s).2 = st_claims s.
Proof. unfold Store_patch. by repeat case_match. Qed.

Lemma Store_get_world name (s : Store) : (Store_get name s).2 = s.
Proof. unfold Store_get. by repeat case_match. Qed.

Lemma in_snoc_other (nc : NodeClaim) (tr : list Event) (e : Event) :
  is_deleted e = false →
  In (EvDelete nc None) (tr ++ [e]) → In (EvDelete nc None) tr.
Proof.
  intros He. rewrite in_app_iff. intros [Hin | [Heq | []]]; [done | by subst].
Qed.

(** Once an invocation has seen the store accept a delete of the claim, the
    claim is not in the store any more. *)
Lemma Store_stable_deleted (nc : NodeClaim) :
  stable (λ (s : Store) tr, In (EvDelete nc None) tr → nc_Name nc ∉ st_claims s).
Proof.
  constructor; intros; intros s tr HR;
    unfold Since, Get, StatusPatch, Delete, LogInfo, MetricInc;
    cbn [clock_Now kube_Get kube_StatusPatch kube_Delete Store_Collaborators].
  - cbn. intros Hin. apply HR. eapply in_snoc_other; [| exact Hin]; done.
  - pose proof (Store_get_world name s) as Hw.
    destruct (Store_get name s) as [r s1]. cbn in *. subst s1.
    intros Hin. apply HR. eapply in_snoc_other; [| exact Hin]; done.
  - pose proof (Store_patch_claims obj stored lock s) as Hc.
    destruct (Store_patch obj stored lock s) as [r s1]. cbn in *.
    rewrite Hc. intros Hin. apply HR. eapply in_snoc_other; [| exact Hin]; done.
  - unfold Store_delete. case_decide; cbn; rewrite in_app_iff.
    + intros [Hin | [Heq | []]] [Hel Hne]%elem_of_difference.
      * by apply HR.
      * simplify_eq. by apply Hne, elem_of_singleton.
    + intros [Hin | [Heq | []]]; [auto | discriminate].
  - cbn. intros Hin. apply HR. eapply in_snoc_other; [| exact Hin]; done.
  - cbn. intros Hin. apply HR. eapply in_snoc_other; [| exact Hin]; done.
Qed.

Lemma Store_deleted_gone (s : Store) (nc : NodeClaim) :
  In (EvDelete nc None) (trace_of (run (Reconcile nc) s)) →
  nc_Name nc ∉ st_claims (world_of (run (Reconcile nc) s)).
Proof.
  apply (Reconcile_preserves _ nc (Store_stable_deleted nc) s []).
  by intros [].
Qed.

(** In the reference store the propagation step never fails: nobody else
    writes between the read and the conditional write. *)
Lemma Store_propagation (nc : NodeClaim) (c : Condition) (s : Store) (tr0 : list Event) :
  launched_of nc = Some c →
  ∃ err s' tr,
    updateNodePoolRegistrationHealth nc s tr0 = (Value err, s', tr0 ++ tr) ∧
    IgnoreNotFound err = None ∧ st_claims s' = st_claims s.
Proof.
  intros Hl.
  unfold updateNodePoolRegistrationHealth, Get, StatusPatch, DeepCopy, bind, ret.
  unfold launched_of in Hl. rewrite Hl.
  cbn [clock_Now kube_Get kube_StatusPatch kube_Delete Store_Collaborators].
  destruct (negb _).
  2:{ exists None, s, []. by rewrite app_nil_r. }
  unfold Store_get.
  destruct (st_pools s !! label (nc_Labels nc) NodePoolLabelKey) as [[v cs]|] eqn:Hp.
  2:{ by eexists _, _, [_]. }
  cbv beta iota. destruct (IsUnknown _).
  2:{ by eexists _, _, [_]. }
  assert (∀ r m,
    Store_patch
      (NodePool_SetFalse
         {| np_Name := label (nc_Labels nc) NodePoolLabelKey;
            np_ResourceVersion := v; np_Conditions := cs |}
         ConditionTypeNodeRegistrationHealthy r m)
      {| np_Name := label (nc_Labels nc) NodePoolLabelKey;
         np_ResourceVersion := v; np_Conditions := cs |} true s =
    (None,
     {| st_now := st_now s; st_claims := st_claims s;
        st_pools :=
          <[ label (nc_Labels nc) NodePoolLabelKey :=
               (v + 1, ConditionSet_SetFalse cs ConditionTypeNodeRegistrationHealthy r m) ]>
            (st_pools s) |})) as Hpatch.
  { intros r m. unfold Store_patch, NodePool_SetFalse. cbn [np_Name np_ResourceVersion
      np_Conditions]. rewrite Hp, Z.eqb_refl. done. }
  destruct (IsTrue (Some c)); cbv beta iota; rewrite Hpatch; cbn [IgnoreNotFound];
    cbv beta iota; eexists _, _, [_; _]; by rewrite <- app_assoc.
Qed.

(** A claim that is no longer in the store and whose stage has timed out:
    the delete is answered NotFound and the invocation is done. *)
Lemma Store_absent_done (s : Store) (nc : NodeClaim) :
  nc_Name nc ∉ st_claims s →
  timed_out nc (st_now s) →
  result_of (run (Reconcile nc) s) = done ∧
  last (trace_of (run (Reconcile nc) s)) = Some (EvDelete nc (Some ErrNotFound)).
Proof.
  intros Habsent (Hreg & c & Hl & Hstage).
  assert (∀ s', st_claims s' = st_claims s →
            kube_Delete nc s' = (Some ErrNotFound, s')) as Hdel.
  { intros s' Hs'. cbn. unfold Store_delete. rewrite Hs'. by case_decide. }
  unfold result_of, trace_of, run, Reconcile, launchStage, Since, bind, ret.
  fold (registered_of nc). fold (launched_of nc). rewrite Hreg, Hl.
  cbn [clock_Now Store_Collaborators].
  destruct Hstage as [(Hnt & Hexp) | (Ht & reg & Hr & Hexp)].
  - rewrite Hnt. cbn [negb].
    rewrite expired_at by (done || by rewrite launchTimeout_eq).
    rewrite deleteNodeClaimForTimeout_run, Hdel by done. done.
  - rewrite Ht. cbn [negb]. rewrite Hr.
    unfold registrationStage, Since, bind, ret.
    cbn [clock_Now Store_Collaborators].
    rewrite expired_at by (done || by rewrite registrationTimeout_eq).
    destruct (Store_propagation nc c s
                ([] ++ [EvSince (LastTransitionTime reg)
                          (time.Time_Sub (st_now s) (LastTransitionTime reg))]) Hl)
      as (err & s' & tr & -> & -> & Hclaims).
    rewrite deleteNodeClaimForTimeout_run, Hdel by done.
    cbn [fst snd IgnoreNotFound]. split; [done |].
    unfold deletion. apply last_snoc.
Qed.

(** C8.  A delete answered NotFound, at the launch or at the registration
    stage, is swallowed: it ends the invocation with result done and no
    error, whatever the collaborators.  Hence, in the reference store, when
    a first invocation has deleted the claim, a second invocation on the
    claim in the same timed-out condition state finds it gone and yields
    done without an error, its delete being answered NotFound. *)
Theorem delete_not_found_is_done :
  (∀ (W : Type) (C : Collaborators W) (w : W) (nc : NodeClaim),
     notfound_final (result_of (run (Reconcile nc) w))
       (trace_of (run (Reconcile nc) w))) ∧
  (∀ (s : Store) (nc : NodeClaim) (later : time.Time),
     In (EvDelete nc None) (trace_of (run (Reconcile nc) s)) →
     timed_out nc later →
     let second := run (Reconcile nc) (at_time later (world_of (run (Reconcile nc) s))) in
     result_of second = done ∧
     last (trace_of second) = Some (EvDelete nc (Some ErrNotFound))).
Proof.
  split.
  - intros W C w nc. eapply reconciled_notfound_final, Reconcile_run.
  - intros s nc later Hdeleted Hstate second.
    apply Store_absent_done; [| done].
    by apply Store_deleted_gone.
Qed.

(** A claim that is not in the store stays out of it, and no delete of it
    is accepted. *)
Lemma Store_stable_absent (nc : NodeClaim) :
  stable (λ (s : Store) tr, (nc_Name nc ∉ st_claims s) ∧ Forall (not_deleted nc) tr).
Proof.
  constructor; intros; intros s tr [Habsent Hnone];
    unfold Since, Get, StatusPatch, Delete, LogInfo, MetricInc;
    cbn [clock_Now kube_Get kube_StatusPatch kube_Delete Store_Collaborators].
  - cbn. split; [done |]. apply Forall_app. by repeat constructor.
  - pose proof (Store_get_world name s) as Hw.
    destruct (Store_get name s) as [r s1]. cbn in *. subst s1.
    split; [done |]. apply Forall_app. by repeat constructor.
  - pose proof (Store_patch_claims obj stored lock s) as Hc.
    destruct (Store_patch obj stored lock s) as [r s1]. cbn in *.
    rewrite Hc. split; [done |]. apply Forall_app. by repeat constructor.
  - unfold Store_delete. case_decide as Hin; cbn.
    + split; [intros [Hel _]%elem_of_difference; by apply Habsent |].
      apply Forall_app. split; [done |]. repeat constructor.
      cbn. intros Heq. apply Habsent. by rewrite <- Heq.
    + split; [done |]. apply Forall_app. by repeat constructor.
  - cbn. split; [done |]. apply Forall_app. by repeat constructor.
  - cbn. split; [done |]. apply Forall_app. by repeat constructor.
Qed.

Lemma none_deleted (nc : NodeClaim) (tr : list Event) :
  Forall (mutation_allowed nc) tr → Forall (not_deleted nc) tr →
  count is_deleted tr = 0%nat.
Proof.
  unfold count. induction tr as [|e tr IH]; [done |].
  intros [He Htr]%Forall_cons [Hn Hntr]%Forall_cons.
  specialize (IH Htr Hntr).
  destruct e as [| | |nc' [err|]| |]; cbn in *; try done.
  by subst nc'.
Qed.

(** C9.  The counter moves only with a delete the store accepted: in the
    trace of every invocation each accepted delete of the claim is
    followed at once by one increment, labelled with the timeout's reason
    and the claim's pool and capacity type, no increment stands anywhere
    else, and so there are as many increments as accepted deletes.  A
    delete answered NotFound ends the invocation with result done and
    without an error, hence without an increment.  So, in the reference
    store, an invocation on a claim that an earlier attempt deleted does
    not move the counter: the claim is not counted again. *)
Theorem counter_only_on_accepted_delete :
  (∀ (W : Type) (C : Collaborators W) (w : W) (nc : NodeClaim),
     counted_with_deletes nc (trace_of (run (Reconcile nc) w)) ∧
     count is_inc (trace_of (run (Reconcile nc) w)) =
       count is_deleted (trace_of (run (Reconcile nc) w)) ∧
     notfound_final (result_of (run (Reconcile nc) w))
       (trace_of (run (Reconcile nc) w))) ∧
  (∀ (s : Store) (nc : NodeClaim),
     nc_Name nc ∉ st_claims s →
     count is_inc (trace_of (run (Reconcile nc) s)) = 0%nat).
Proof.
  split.
  - intros W C w nc. pose proof (Reconcile_run nc w) as Hp.
    destruct (reconciled_counted _ _ _ Hp) as [Hc Hn].
    repeat split; [done | done |]. by eapply reconciled_notfound_final.
  - intros s nc Habsent. pose proof (Reconcile_run nc s) as Hp.
    destruct (reconciled_counted _ _ _ Hp) as [_ ->].
    destruct (reconciled_frame _ _ _ Hp) as [Hm _].
    apply (none_deleted nc); [done |].
    by apply (Reconcile_preserves _ nc (Store_stable_absent nc) s []).
Qed.

(** ** The claims at concrete inputs *)

Import Sample.

(** An instance: a claim whose Registered condition is True and whose
    Launched condition was never observed. *)
Lemma registered_true_done_witness :
  run (Reconcile registered_only) (store (minutes 20) true (health ConditionUnknown)) =
    (done, store (minutes 20) true (health ConditionUnknown), []).
Proof. apply registered_true_done. reflexivity. Defined.

(** Launched absent does not always mean an immediate requeue: with
    Registered True the result is done. *)
Lemma absent_launched_registered_true_is_done :
  launched_of registered_only = None ∧
  run (Reconcile registered_only) (store (minutes 20) true (health ConditionUnknown)) =
    (done, store (minutes 20) true (health ConditionUnknown), []) ∧
  done ≠ requeue_immediately.
Proof. split; [reflexivity |]. split; [reflexivity | discriminate]. Qed.

(** An instance: a claim on which nothing was observed yet. *)
Lemma absent_condition_requeues_witness :
  run (Reconcile fresh) (store (minutes 20) true (health ConditionUnknown)) =
    (requeue_immediately, store (minutes 20) true (health ConditionUnknown), []).
Proof. apply absent_condition_requeues. left. split; reflexivity. Defined.

(** Being inside the window does not always mean a requeue after the
    remaining time.  Inside the launch window a claim whose Registered
    condition is True gets done.  And when the Launched condition carries a
    transition time more than 2^63 nanoseconds ahead of the clock, the
    elapsed time is the least duration, below the timeout, yet the 64-bit
    subtraction wraps to a negative remaining time and the claim is
    deleted. *)
Lemma inside_window_without_requeue_after :
  (launched_of registered_not_launched =
     Some (cond ConditionTypeLaunched ConditionUnknown "LaunchFailed" "no capacity" 0) ∧
   time.Time_Sub (minutes 3) 0 < launchTimeout ∧
   run (Reconcile registered_not_launched)
       (store (minutes 3) true (health ConditionUnknown)) =
     (done, store (minutes 3) true (health ConditionUnknown), [])) ∧
  (launched_of launch_far_ahead =
     Some (cond ConditionTypeLaunched ConditionUnknown "LaunchFailed" "no capacity"
             (2 ^ 63 + 1)) ∧
   IsTrue (registered_of launch_far_ahead) = false ∧
   time.Time_Sub 0 (2 ^ 63 + 1) = time.minDuration ∧
   time.Time_Sub 0 (2 ^ 63 + 1) < launchTimeout ∧
   time.sub launchTimeout (time.Time_Sub 0 (2 ^ 63 + 1)) = launchTimeout - 2 ^ 63 ∧
   trace_of (run (Reconcile launch_far_ahead)
               (store 0 false (health ConditionUnknown))) =
     [EvSince (2 ^ 63 + 1) time.minDuration;
      EvDelete launch_far_ahead (Some ErrNotFound)] ∧
   result_of (run (Reconcile launch_far_ahead)
                (store 0 false (health ConditionUnknown))) = done).
Proof. repeat split; vm_compute; reflexivity. Qed.

(** An instance: three minutes into the launch window. *)
Lemma inside_window_requeue_after_witness :
  run (Reconcile launch_failed) (store (minutes 3) true (health ConditionUnknown)) =
    (requeue_after (launchTimeout - time.Time_Sub (minutes 3) 0),
     store (minutes 3) true (health ConditionUnknown),
     [EvSince 0 (time.Time_Sub (minutes 3) 0)]) ∧
  0 < launchTimeout - time.Time_Sub (minutes 3) 0.
Proof.
  apply (inside_window_requeue_after
           (store (minutes 3) true (health ConditionUnknown))
           (store (minutes 3) true (health ConditionUnknown))
           launch_failed
           (cond ConditionTypeLaunched ConditionUnknown "LaunchFailed" "no capacity" 0)
           launchTimeout (minutes 3)).
  - reflexivity.
  - left. repeat split; reflexivity.
  - reflexivity.
  - vm_compute; reflexivity.
  - vm_compute; reflexivity.
Defined.

(** The launch-timeout deletion is not always there, and not always the
    last thing done.  Twenty minutes after a failed launch, a claim whose
    Registered condition is True is left alone: nothing is deleted.  And
    when the store accepts the launch-timeout delete, the invocation goes on
    with the registration stage: here it writes the pool condition and
    deletes the claim a second time. *)
Lemma launch_timeout_not_final :
  (launched_of registered_not_launched =
     Some (cond ConditionTypeLaunched ConditionUnknown "LaunchFailed" "no capacity" 0) ∧
   launchTimeout ≤ time.Time_Sub (minutes 20) 0 ∧
   run (Reconcile registered_not_launched)
       (store (minutes 20) true (health ConditionUnknown)) =
     (done, store (minutes 20) true (health ConditionUnknown), [])) ∧
  (launched_of launch_failed =
     Some (cond ConditionTypeLaunched ConditionUnknown "LaunchFailed" "no capacity" 0) ∧
   launchTimeout ≤ time.Time_Sub (minutes 20) 0 ∧
   trace_of (run (Reconcile launch_failed)
               (store (minutes 20) true (health ConditionUnknown))) =
     [ EvSince 0 (minutes 20);
       EvDelete launch_failed None;
       EvLog launchTimeout "launch_timeout";
       EvMetricInc "launch_timeout" "default" "spot";
       EvSince 0 (minutes 20);
       EvGet "default" (inr (pool (health ConditionUnknown)));
       EvStatusPatch
         (NodePool_SetFalse (pool (health ConditionUnknown))
            ConditionTypeNodeRegistrationHealthy "LaunchFailed" "no capacity")
         (pool (health ConditionUnknown)) true None;
       EvDelete launch_failed (Some ErrNotFound) ] ∧
   count is_delete
     (trace_of (run (Reconcile launch_failed)
                  (store (minutes 20) true (health ConditionUnknown)))) = 2%nat ∧
   count is_patch
     (trace_of (run (Reconcile launch_failed)
                  (store (minutes 20) true (health ConditionUnknown)))) = 1%nat).
Proof. repeat split; vm_compute; (reflexivity || discriminate). Qed.

(** An instance: a claim the store no longer has; the delete is answered
    NotFound and nothing follows it. *)
Lemma launch_timeout_deletes_witness :
  ∃ rest,
    trace_of (run (Reconcile launch_failed)
                (script ConditionUnknown None (Some ErrNotFound))) =
      EvSince 0 (time.Time_Sub (minutes 20) 0) ::
      deletion LaunchTimeout launch_failed (Some ErrNotFound) ++ rest ∧
    (Some ErrNotFound ≠ None →
     rest = [] ∧
     result_of (run (Reconcile launch_failed)
                  (script ConditionUnknown None (Some ErrNotFound))) = done ∧
     world_of (run (Reconcile launch_failed)
                 (script ConditionUnknown None (Some ErrNotFound))) =
       script ConditionUnknown None (Some ErrNotFound)).
Proof.
  assert (launchTimeout ≤ time.Time_Sub (minutes 20) 0) as Hexpired
    by (vm_compute; discriminate).
  exact (launch_timeout_deletes
           (script ConditionUnknown None (Some ErrNotFound))
           (script ConditionUnknown None (Some ErrNotFound))
           launch_failed
           (cond ConditionTypeLaunched ConditionUnknown "LaunchFailed" "no capacity" 0)
           (minutes 20) eq_refl eq_refl eq_refl eq_refl Hexpired).
Defined.

(** An instance: a launched claim, twenty minutes on, its pool still
    undecided. *)
Lemma registration_timeout_propagates_witness :
  run (Reconcile launched) (script ConditionUnknown None None) =
    (done, script ConditionUnknown None None,
     [ EvSince 0 (time.Time_Sub (minutes 20) 0);
       EvGet "default" (inr (pool (health ConditionUnknown)));
       EvStatusPatch
         (NodePool_SetFalse (pool (health ConditionUnknown))
            ConditionTypeNodeRegistrationHealthy
            "RegistrationFailed" "Failed to register node")
         (pool (health ConditionUnknown)) true None ] ++
     deletion RegistrationTimeout launched None) ∧
  count is_patch (trace_of (run (Reconcile launched) (script ConditionUnknown None None)))
    = 1%nat ∧
  (∃ c, health_of (NodePool_SetFalse (pool (health ConditionUnknown))
                     ConditionTypeNodeRegistrationHealthy
                     "RegistrationFailed" "Failed to register node") = Some c ∧
        Status c = ConditionFalse ∧
        Reason c = "RegistrationFailed" ∧ Message c = "Failed to register node") ∧
  ∀ (nc' : NodeClaim) (w' : Script),
    Forall (derived_reason nc') (trace_of (run (Reconcile nc') w')).
Proof.
  assert (registrationTimeout ≤ time.Time_Sub (minutes 20) 0) as Hexpired
    by (vm_compute; discriminate).
  assert (label (nc_Labels launched) NodePoolLabelKey ≠ "") as Hpool
    by (vm_compute; discriminate).
  exact (registration_timeout_propagates
           (script ConditionUnknown None None) (script ConditionUnknown None None)
           (script ConditionUnknown None None) (script ConditionUnknown None None)
           launched
           (cond ConditionTypeRegistered ConditionUnknown "AwaitingReconciliation" "" 0)
           (pool (health ConditionUnknown)) (minutes 20) None
           eq_refl eq_refl eq_refl eq_refl Hexpired Hpool eq_refl eq_refl eq_refl eq_refl).
Defined.

(** An instance: a launched claim, twenty minutes on, its pool already
    False. *)
Lemma skipped_propagation_still_deletes_witness :
  run (Reconcile launched) (script ConditionFalse None None) =
    (done, script ConditionFalse None None,
     EvSince 0 (time.Time_Sub (minutes 20) 0) ::
     [EvGet "default" (inr (pool (health ConditionFalse)))] ++
     deletion RegistrationTimeout launched None) ∧
  count is_patch (trace_of (run (Reconcile launched) (script ConditionFalse None None)))
    = 0%nat ∧
  ∀ (nc' : NodeClaim) (w' : Script),
    Forall unknown_to_false (trace_of (run (Reconcile nc') w')) ∧
    decided_then_deleted nc' (trace_of (run (Reconcile nc') w')) ∧
    (label (nc_Labels nc') NodePoolLabelKey = "" →
     count is_pool_call (trace_of (run (Reconcile nc') w')) = 0%nat).
Proof.
  assert (registrationTimeout ≤ time.Time_Sub (minutes 20) 0) as Hexpired
    by (vm_compute; discriminate).
  assert (label (nc_Labels launched) NodePoolLabelKey ≠ "") as Hpool
    by (vm_compute; discriminate).
  exact (skipped_propagation_still_deletes
           (script ConditionFalse None None) (script ConditionFalse None None)
           (script ConditionFalse None None)
           launched
           (cond ConditionTypeRegistered ConditionUnknown "AwaitingReconciliation" "" 0)
           (minutes 20)
           [EvGet "default" (inr (pool (health ConditionFalse)))]
           eq_refl eq_refl eq_refl eq_refl Hexpired
           (or_intror
              (ex_intro _ (pool (health ConditionFalse))
                 (conj Hpool (conj eq_refl (conj eq_refl eq_refl)))))).
Defined.

(** An instance in the reference store: the first invocation deletes the
    launched claim twenty minutes on, the second, a minute later, finds it
    gone. *)
Lemma delete_not_found_is_done_witness :
  In (EvDelete launched None)
     (trace_of (run (Reconcile launched)
                  (store (minutes 20) true (health ConditionUnknown)))) ∧
  timed_out launched (minutes 21) ∧
  result_of
    (run (Reconcile launched)
       (at_time (minutes 21)
          (world_of (run (Reconcile launched)
                       (store (minutes 20) true (health ConditionUnknown)))))) = done.
Proof.
  assert (In (EvDelete launched None)
            (trace_of (run (Reconcile launched)
                         (store (minutes 20) true (health ConditionUnknown))))) as Hin.
  { vm_compute. do 3 right. left. reflexivity. }
  assert (timed_out launched (minutes 21)) as Hout.
  { split; [reflexivity |].
    exists (cond ConditionTypeLaunched ConditionTrue "Launched" "" 0).
    split; [reflexivity |]. right. split; [reflexivity |].
    exists (cond ConditionTypeRegistered ConditionUnknown "AwaitingReconciliation" "" 0).
    split; [reflexivity | vm_compute; discriminate]. }
  split; [exact Hin |]. split; [exact Hout |].
  exact (proj1 (proj2 delete_not_found_is_done
                  (store (minutes 20) true (health ConditionUnknown))
                  launched (minutes 21) Hin Hout)).
Defined.

(** An instance in the reference store: a launched claim already gone,
    twenty minutes on. *)
Lemma counter_only_on_accepted_delete_witness :
  count is_inc
    (trace_of (run (Reconcile launched)
                 (store (minutes 20) false (health ConditionUnknown)))) = 0%nat.
Proof.
  apply (proj2 counter_only_on_accepted_delete).
  exact (not_elem_of_empty (C := gset string) "claim-a").
Defined.

(** C3 at a failing input.  Launch failed twenty minutes ago and the
    Registered condition is as old; the store accepts the launch-timeout
    delete and then answers the conditional pool write with Conflict.  The
    result is an immediate requeue, but the claim has been deleted in this
    very invocation, before the propagation step. *)
Theorem conflict_after_launch_delete :
  run (Reconcile launch_failed) (script ConditionUnknown (Some ErrConflict) None) =
    (requeue_immediately, script ConditionUnknown (Some ErrConflict) None,
     [ EvSince 0 (minutes 20);
       EvDelete launch_failed None;
       EvLog launchTimeout "launch_timeout";
       EvMetricInc "launch_timeout" "default" "spot";
       EvSince 0 (minutes 20);
       EvGet "default" (inr (pool (health ConditionUnknown)));
       EvStatusPatch
         (NodePool_SetFalse (pool (health ConditionUnknown))
            ConditionTypeNodeRegistrationHealthy "LaunchFailed" "no capacity")
         (pool (health ConditionUnknown)) true (Some ErrConflict) ]).
Proof. vm_compute. reflexivity. Qed.

(** What holds when a write conflicts: it ends the invocation with an
    immediate requeue and no error, nothing follows it, and for a claim
    that launched nothing is deleted in that invocation. *)
Lemma conflict_requeues {W : Type} `{Collaborators W} (w : W) (nc : NodeClaim) :
  conflict_final (result_of (run (Reconcile nc) w)) (trace_of (run (Reconcile nc) w)) ∧
  ∀ obj stored lock,
    IsTrue (launched_of nc) = true →
    In (EvStatusPatch obj stored lock (Some ErrConflict))
       (trace_of (run (Reconcile nc) w)) →
    result_of (run (Reconcile nc) w) = requeue_immediately ∧
    count is_delete (trace_of (run (Reconcile nc) w)) = 0%nat.
Proof.
  pose proof (Reconcile_run nc w) as Hp. split.
  - by eapply reconciled_conflict_final.
  - intros obj stored lock Hl Hin. by eapply reconciled_conflict_no_delete.
Qed.

(** C10 at a failing input.  Launch failed twenty minutes ago and the
    Registered condition is as old; the store accepts every delete (the
    claim stays while its finalizers run).  One invocation deletes the claim
    twice, once for each timeout, and counts it twice. *)
Theorem two_deletes_in_one_invocation :
  trace_of (run (Reconcile launch_failed) (script ConditionUnknown None None)) =
    [ EvSince 0 (minutes 20);
      EvDelete launch_failed None;
      EvLog launchTimeout "launch_timeout";
      EvMetricInc "launch_timeout" "default" "spot";
      EvSince 0 (minutes 20);
      EvGet "default" (inr (pool (health ConditionUnknown)));
      EvStatusPatch
        (NodePool_SetFalse (pool (health ConditionUnknown))
           ConditionTypeNodeRegistrationHealthy "LaunchFailed" "no capacity")
        (pool (health ConditionUnknown)) true None;
      EvDelete launch_failed None;
      EvLog registrationTimeout "registration_timeout";
      EvMetricInc "registration_timeout" "default" "spot" ] ∧
  count is_delete
    (trace_of (run (Reconcile launch_failed) (script ConditionUnknown None None))) = 2%nat.
Proof. split; vm_compute; reflexivity. Qed.

(** What holds of the frame: the claim itself is never written.  The
    calls that change the store are deletes of the claim and lock-guarded
    status writes to a pool, with at most one write; a claim that launched
    is deleted at most once. *)
Lemma claim_never_written {W : Type} `{Collaborators W} (w : W) (nc : NodeClaim) :
  Forall (mutation_allowed nc) (trace_of (run (Reconcile nc) w)) ∧
  (count is_patch (trace_of (run (Reconcile nc) w)) ≤ 1)%nat ∧
  (count is_delete (trace_of (run (Reconcile nc) w)) ≤ 2)%nat ∧
  (IsTrue (launched_of nc) = true →
   (count is_delete (trace_of (run (Reconcile nc) w)) ≤ 1)%nat).
Proof. eapply reconciled_frame, Reconcile_run. Qed.

(** [Reconcile] never dereferences a nil condition. *)
Lemma Reconcile_no_panic {W : Type} `{Collaborators W} (w : W) (nc : NodeClaim) :
  result_of (run (Reconcile nc) w) ≠ Panic.
Proof. eapply reconciled_no_panic, Reconcile_run. Qed.

(** A launched claim without a pool label, twenty minutes on: no pool is
    read or written and the claim is deleted for the registration timeout. *)
Example orphan_deleted_without_pool_call :
  run (Reconcile orphan) (store (minutes 20) true (health ConditionUnknown)) =
    (done,
     {| st_now := minutes 20; st_claims := {[ "claim-a" ]} ∖ {[ "claim-a" ]};
        st_pools := {[ "default" := (7, health ConditionUnknown) ]} |},
     [ EvSince 0 (minutes 20);
       EvDelete orphan None;
       EvLog registrationTimeout "registration_timeout";
       EvMetricInc "registration_timeout" "" "spot" ]).
Proof. vm_compute. reflexivity. Qed.

(** * Further properties of the reconciler *)

#[local] Arguments verdict_of : simpl nomatch.

Lemma wrap64_range (z : Z) : time.minDuration ≤ time.wrap64 z ≤ time.maxDuration.
Proof.
  unfold time.wrap64, time.minDuration, time.maxDuration.
  pose proof (Z.mod_pos_bound (z + 2 ^ 63) (2 ^ 64)). lia.
Qed.

Lemma reconciled_error_policy nc out tr :
  reconciled nc out tr → error_policy out tr ∧ error_is_last_answer out tr.
Proof.
  intros Hp; paths; answers; cbn in *; try discriminate; repeat split;
    try done; eauto.
Qed.

Lemma reconciled_pool_step_then_deleted nc out tr :
  reconciled nc out tr → pool_step_then_deleted nc tr.
Proof.
  intros Hp; paths; answers; cbn in *; try discriminate; repeat split;
    try done; eauto.
Qed.

Lemma reconciled_read_modify_write nc out tr :
  reconciled nc out tr → read_modify_write nc tr.
Proof.
  intros Hp; paths; answers; cbn in *; repeat split; try done.
Qed.

Lemma reconciled_result_shape nc out tr :
  reconciled nc out tr → result_shape out tr.
Proof.
  intros Hp; paths; answers; cbn in *; try discriminate; try congruence; auto.
  all: right; right; eexists _, _, _; split; [reflexivity |];
    split; [| split; [reflexivity | split; [done | apply wrap64_range]]].
  all: auto.
Qed.

Lemma reconciled_budget nc out tr :
  reconciled nc out tr →
  (count is_since tr ≤ 2)%nat ∧ (count is_get tr ≤ 1)%nat ∧
  (count is_patch tr ≤ count is_get tr)%nat ∧
  (count is_log tr = count is_inc tr) ∧
  (length tr ≤ 10)%nat ∧
  (IsTrue (launched_of nc) = true →
   (count is_since tr ≤ 1)%nat ∧ (length tr ≤ 6)%nat).
Proof.
  intros Hp; paths; answers; cbn; repeat split; try done; try lia; congruence.
Qed.

Lemma reconciled_acts_after_expiry nc out tr :
  reconciled nc out tr → acts_after_expiry nc tr.
Proof.
  intros Hp; unfold acts_after_expiry, stage_timeout; paths; simplify_eq; answers;
    try match goal with Heq : launched_of _ = Some _ |- _ => rewrite Heq end;
    try match goal with Ht : IsTrue (Some _) = _ |- _ => rewrite Ht end;
    cbn; auto.
Qed.

(** Once the requested delay has passed, the timeout has run out. *)
Lemma Time_Sub_reaches (timeout : time.Duration) (now later t : time.Time) :
  0 ≤ timeout ≤ time.maxDuration →
  timeout - 2 ^ 63 < time.Time_Sub now t → time.Time_Sub now t < timeout →
  now + (timeout - time.Time_Sub now t) ≤ later →
  timeout ≤ time.Time_Sub later t.
Proof.
  unfold time.Time_Sub, time.minDuration, time.maxDuration.
  intros Ht Hlo Hhi Hlater. repeat case_match; lia.
Qed.

Section Further.
Context {W : Type} `{Collaborators W}.


(** X2.  How a failed call to the store ends an invocation.  A conflict on
    the pool, at the read or at the write, gives an immediate requeue
    without an error; any other error of the pool step but NotFound is
    returned as it is; a delete answered NotFound gives done, and every
    other error of the delete, a conflict too, is returned as it is.  The
    failed call is the last call of the invocation.  Conversely an error is
    never made up: a returned error comes with the zero result, is not
    NotFound and is the answer of the last call. *)
Theorem store_errors_end_the_invocation (w : W) (nc : NodeClaim) :
  error_policy (result_of (run (Reconcile nc) w)) (trace_of (run (Reconcile nc) w)) ∧
  error_is_last_answer (result_of (run (Reconcile nc) w))
    (trace_of (run (Reconcile nc) w)).
Proof.
  pose proof (Reconcile_run nc w) as Hp.
  by eapply reconciled_error_policy.
Qed.

(** X3.  A pool that is gone does not keep the claim: when the pool read or
    the conditional write is answered NotFound, and as well when the write
    is done, what follows is the registration-timeout deletion of the claim
    and nothing else. *)
Theorem pool_step_is_followed_by_deletion (w : W) (nc : NodeClaim) :
  pool_step_then_deleted nc (trace_of (run (Reconcile nc) w)).
Proof.
  pose proof (Reconcile_run nc w) as Hp.
  by eapply reconciled_pool_step_then_deleted.
Qed.

(** X4.  The pool is changed by read-modify-write only.  Every read asks
    for the pool named by the claim's pool label, and only when that label
    is not empty; every write comes right after a read that found the pool,
    passes the object read as the base of the patch, keeps its name and
    version, and holds the optimistic lock. *)
Theorem write_follows_read_of_own_pool (w : W) (nc : NodeClaim) :
  read_modify_write nc (trace_of (run (Reconcile nc) w)).
Proof.
  pose proof (Reconcile_run nc w) as Hp.
  by eapply reconciled_read_modify_write.
Qed.

(** X5.  The result is well formed.  With an error the result is zero;
    without one it is zero, an immediate requeue, or a requeue after a
    delay; [Requeue] and [RequeueAfter] are never set together; a delay is
    positive, is what the last reading of the clock left of the launch or
    of the registration timeout, and that reading is the last call. *)
Theorem result_is_well_formed (w : W) (nc : NodeClaim) :
  result_shape (result_of (run (Reconcile nc) w)) (trace_of (run (Reconcile nc) w)).
Proof.
  pose proof (Reconcile_run nc w) as Hp.
  by eapply reconciled_result_shape.
Qed.

(** X6.  One invocation is a bounded pass: at most two readings of the
    clock, one read of a pool, one write (and none without the read), as
    many log lines as increments, ten calls in all; for a claim that
    launched, at most one reading of the clock and six calls. *)
Theorem invocation_is_bounded (w : W) (nc : NodeClaim) :
  (count is_since (trace_of (run (Reconcile nc) w)) ≤ 2)%nat ∧
  (count is_get (trace_of (run (Reconcile nc) w)) ≤ 1)%nat ∧
  (count is_patch (trace_of (run (Reconcile nc) w)) ≤
     count is_get (trace_of (run (Reconcile nc) w)))%nat ∧
  count is_log (trace_of (run (Reconcile nc) w)) =
    count is_inc (trace_of (run (Reconcile nc) w)) ∧
  (length (trace_of (run (Reconcile nc) w)) ≤ 10)%nat ∧
  (IsTrue (launched_of nc) = true →
   (count is_since (trace_of (run (Reconcile nc) w)) ≤ 1)%nat ∧
   (length (trace_of (run (Reconcile nc) w)) ≤ 6)%nat).
Proof.
  pose proof (Reconcile_run nc w) as Hp.
  by eapply reconciled_budget.
Qed.

(** X7.  Nothing is done to the store inside the window: an invocation
    that does anything starts by reading the clock, and it makes another
    call only when that reading leaves nothing of the timeout of the
    claim's stage (as the 64-bit subtraction gives it): the launch timeout
    while the Launched condition is not True, the registration timeout
    after. *)
Theorem store_untouched_before_expiry (w : W) (nc : NodeClaim) :
  acts_after_expiry nc (trace_of (run (Reconcile nc) w)).
Proof.
  pose proof (Reconcile_run nc w) as Hp.
  by eapply reconciled_acts_after_expiry.
Qed.

(** X12.  What the propagation step returns to its caller.  It never reads
    the clock, deletes or counts, reads the pool at most once and writes
    only after the read.  NotFound comes back only from the read: at the
    write it is swallowed.  Any other error returned is the answer of the
    last call, read or write.  It panics only on a claim without a Launched
    condition, and without a pool label it returns nil and calls nothing. *)
Theorem propagation_return_policy (w : W) (nc : NodeClaim) (tr0 : list Event) :
  ∃ tr,
    (updateNodePoolRegistrationHealth nc w tr0).2 = tr0 ++ tr ∧
    propagation_return nc (updateNodePoolRegistrationHealth nc w tr0).1.1 tr.
Proof.
  destruct (updateNodePoolRegistrationHealth_run nc w tr0) as (out & w1 & tr & -> & Hp).
  exists tr. split; [done |]. cbn [fst snd].
  unfold propagation_return.
  inversion Hp; subst; answers; cbn in *; repeat split;
    try done; try lia; try congruence; eauto.
  all: eexists; split; [reflexivity |]; right; by eexists _, _.
Qed.

End Further.

Section Delay.
Context {W : Type} `{Collaborators W}.

(** When the reading of the clock leaves nothing of the timeout of the
    claim's stage, the next call goes to the store. *)
Lemma acts_when_expired (w w' : W) (nc : NodeClaim) (c : Condition)
    (timeout : time.Duration) (now : time.Time) :
  IsTrue (registered_of nc) = false →
  (launched_of nc = Some c ∧ IsTrue (launched_of nc) = false ∧ timeout = launchTimeout) ∨
  (IsTrue (launched_of nc) = true ∧ registered_of nc = Some c ∧
   timeout = registrationTimeout) →
  clock_Now w = (now, w') →
  (0 <? time.sub timeout (time.Time_Sub now (LastTransitionTime c))) = false →
  ∃ e rest,
    trace_of (run (Reconcile nc) w) =
      EvSince (LastTransitionTime c) (time.Time_Sub now (LastTransitionTime c)) ::
      e :: rest ∧
    is_store_call e = true.
Proof.
  intros Hreg Hstage Hnow Hexp.
  destruct Hstage as [(Hl & Hnt & ->) | (Hl & Hr & ->)];
    unfold trace_of, run, Reconcile, launchStage, registrationStage, Since, bind, ret;
    unfold registered_of, launched_of in *.
  - rewrite Hreg, Hl. rewrite Hl in Hnt. rewrite Hnt. cbn [negb].
    rewrite Hnow, Hexp.
    rewrite deleteNodeClaimForTimeout_run.
    destruct (kube_Delete nc w') as [[e|] w4]; cbn [fst snd].
    + exists (EvDelete nc (Some e)), []. by destruct e.
    + destruct (registrationStage_run nc w4
                  ([] ++ [EvSince (LastTransitionTime c)
                            (time.Time_Sub now (LastTransitionTime c))] ++
                   deletion LaunchTimeout nc None))
        as (out & w5 & tr & Heq & _).
      unfold registered_of, registrationStage, Since, bind, ret in Heq.
      cbn [app] in Heq |- *. rewrite Heq.
      eexists (EvDelete nc None), _. by destruct out.
  - rewrite Hr in *. rewrite Hreg.
    destruct (ConditionSet_Get (nc_Conditions nc) ConditionTypeLaunched) as [l|] eqn:Hlc;
      [| discriminate].
    rewrite Hl. cbn [negb].
    rewrite Hnow, Hexp.
    destruct (updateNodePoolRegistrationHealth_run nc w'
                ([] ++ [EvSince (LastTransitionTime c)
                          (time.Time_Sub now (LastTransitionTime c))]))
      as (out & w4 & tr & -> & Hprop).
    inversion Hprop as [Hnone | e Hsome | np Hsome Hdec | np c' r Hsome Hunk Hlc'
                        | np Hsome Hunk Hlc']; subst; cbn [IgnoreNotFound].
    + rewrite deleteNodeClaimForTimeout_run.
      destruct (kube_Delete nc w4) as [[[]|] w5]; by eexists (EvDelete nc _), _.
    + destruct e; cbn [IgnoreNotFound IsConflict];
        [ rewrite deleteNodeClaimForTimeout_run;
          destruct (kube_Delete nc w4) as [[[]|] w5] | | ];
        by eexists (EvGet _ _), _.
    + rewrite deleteNodeClaimForTimeout_run.
      destruct (kube_Delete nc w4) as [[[]|] w5]; by eexists (EvGet _ _), _.
    + destruct r as [[]|]; cbn [IgnoreNotFound IsConflict];
        try rewrite deleteNodeClaimForTimeout_run;
        try destruct (kube_Delete nc w4) as [[[]|] w5];
        by eexists (EvGet _ _), _.
    + unfold launched_of in Hlc'. congruence.
Qed.

(** X8.  The delay asked for is enough.  When an invocation inside the
    window asks to be requeued after the remaining time, an invocation on
    the same claim at any reading of the clock that is at least that much
    later does not wait again at that stage: right after reading the clock
    it calls the store, to delete the claim or to read its pool. *)
Theorem requeue_after_is_sufficient (w w' w2 w3 : W) (nc : NodeClaim) (c : Condition)
    (timeout : time.Duration) (now later : time.Time) :
  IsTrue (registered_of nc) = false →
  (launched_of nc = Some c ∧ IsTrue (launched_of nc) = false ∧ timeout = launchTimeout) ∨
  (IsTrue (launched_of nc) = true ∧ registered_of nc = Some c ∧
   timeout = registrationTimeout) →
  clock_Now w = (now, w') →
  timeout - 2 ^ 63 < time.Time_Sub now (LastTransitionTime c) →
  time.Time_Sub now (LastTransitionTime c) < timeout →
  clock_Now w2 = (later, w3) →
  now + (timeout - time.Time_Sub now (LastTransitionTime c)) ≤ later →
  result_of (run (Reconcile nc) w) =
    requeue_after (timeout - time.Time_Sub now (LastTransitionTime c)) ∧
  ∃ e rest,
    trace_of (run (Reconcile nc) w2) =
      EvSince (LastTransitionTime c) (time.Time_Sub later (LastTransitionTime c)) ::
      e :: rest ∧
    is_store_call e = true.
Proof.
  intros Hreg Hstage Hnow Hlo Hhi Hnow2 Hlater.
  destruct (remaining_positive timeout _ Hlo Hhi) as [Hsub Hpos].
  assert (0 ≤ timeout ≤ time.maxDuration) as Hrange.
  { destruct Hstage as [(_ & _ & ->) | (_ & _ & ->)];
      [rewrite launchTimeout_eq | rewrite registrationTimeout_eq];
      unfold time.maxDuration; lia. }
  pose proof (Time_Sub_reaches timeout now later _ Hrange Hlo Hhi Hlater) as Hexp.
  split.
  - destruct Hstage as [(Hl & Hnt & ->) | (Hl & Hr & ->)];
      unfold result_of, run, Reconcile, launchStage, registrationStage, Since, bind, ret;
      unfold registered_of, launched_of in *.
    + rewrite Hreg, Hl. rewrite Hl in Hnt. rewrite Hnt. cbn [negb].
      by rewrite Hnow, Hpos, Hsub.
    + rewrite Hr in *. rewrite Hreg.
      destruct (ConditionSet_Get (nc_Conditions nc) ConditionTypeLaunched) as [l|];
        [| discriminate].
      rewrite Hl. cbn [negb]. by rewrite Hnow, Hpos, Hsub.
  - eapply acts_when_expired; [done | done | done |].
    apply expired_at; [lia | done].
Qed.

(** X11.  A transition time too far ahead counts as a timeout.  When the
    condition of the claim's stage carries a transition time so far ahead
    of the clock that the timeout minus the elapsed time does not fit 64
    bits (the elapsed time is at most the timeout minus 2^63 nanoseconds),
    the subtraction wraps to a value that is not positive, and the
    invocation does not wait: right after reading the clock it calls the
    store, to delete the claim or to read its pool. *)
Theorem far_ahead_transition_counts_as_timeout (w w' : W) (nc : NodeClaim)
    (c : Condition) (timeout : time.Duration) (now : time.Time) :
  IsTrue (registered_of nc) = false →
  (launched_of nc = Some c ∧ IsTrue (launched_of nc) = false ∧ timeout = launchTimeout) ∨
  (IsTrue (launched_of nc) = true ∧ registered_of nc = Some c ∧
   timeout = registrationTimeout) →
  clock_Now w = (now, w') →
  time.Time_Sub now (LastTransitionTime c) ≤ timeout - 2 ^ 63 →
  time.sub timeout (time.Time_Sub now (LastTransitionTime c)) ≤ 0 ∧
  ∃ e rest,
    trace_of (run (Reconcile nc) w) =
      EvSince (LastTransitionTime c) (time.Time_Sub now (LastTransitionTime c)) ::
      e :: rest ∧
    is_store_call e = true.
Proof.
  intros Hreg Hstage Hnow Hfar.
  assert (0 ≤ timeout < 2 ^ 62) as Hrange.
  { destruct Hstage as [(_ & _ & ->) | (_ & _ & ->)];
      [rewrite launchTimeout_eq | rewrite registrationTimeout_eq]; lia. }
  pose proof (Time_Sub_range now (LastTransitionTime c)) as Hd.
  unfold time.minDuration, time.maxDuration in Hd.
  assert (time.sub timeout (time.Time_Sub now (LastTransitionTime c)) ≤ 0) as Hwrap.
  { unfold time.sub, time.wrap64.
    replace (timeout - time.Time_Sub now (LastTransitionTime c) + 2 ^ 63)
      with (timeout - time.Time_Sub now (LastTransitionTime c) - 2 ^ 63 + 1 * 2 ^ 64)
      by lia.
    rewrite Z.mod_add by lia. rewrite Z.mod_small by lia. lia. }
  split; [done |].
  eapply acts_when_expired; [done | done | done | lia].
Qed.

End Delay.

(** ** Pools in the reference store *)

(** A relation kept by the clock, by the delete of the claim, by the log and
    the counter, and by the propagation step as a whole, is kept by an
    invocation. *)
Lemma Reconcile_preserves_with {W : Type} `{Collaborators W}
    (R : W → list Event → Prop) (nc : NodeClaim) :
  (∀ t, preserves R (Since t)) →
  preserves R (Delete nc) →
  (∀ d r, preserves R (LogInfo d r)) →
  (∀ r p c, preserves R (MetricInc r p c)) →
  preserves R (updateNodePoolRegistrationHealth nc) →
  preserves R (Reconcile nc).
Proof.
  intros HSince HDelete HLog HInc HUpdate.
  unfold Reconcile, launchStage, registrationStage, deleteNodeClaimForTimeout.
  repeat first
    [ apply preserves_ret
    | apply HSince
    | apply HDelete
    | apply HLog
    | apply HInc
    | apply HUpdate
    | apply preserves_bind; [| intros ? ]
    | case_match ].
Qed.

Lemma Store_delete_pools (nc : NodeClaim) (s : Store) :
  st_pools (Store_delete nc s).2 = st_pools s.
Proof. unfold Store_delete. by case_decide. Qed.

Lemma Store_propagation_keeps_pools (nc : NodeClaim) (s : Store) :
  preserves (λ (s' : Store) (_ : list Event), pools_kept nc s s')
    (updateNodePoolRegistrationHealth nc).
Proof.
  intros s1 tr HR.
  unfold updateNodePoolRegistrationHealth, Get, StatusPatch, DeepCopy, bind, ret, panic.
  cbn [clock_Now kube_Get kube_StatusPatch kube_Delete Store_Collaborators].
  destruct (negb _); [| done].
  unfold Store_get.
  destruct (st_pools s1 !! label (nc_Labels nc) NodePoolLabelKey) as [[v1 cs1]|] eqn:Hp;
    [| done].
  cbv beta iota. destruct (IsUnknown _) eqn:Hunk; [| done].
  assert (∀ r m,
    pools_kept nc s
      (Store_patch
         (NodePool_SetFalse
            {| np_Name := label (nc_Labels nc) NodePoolLabelKey;
               np_ResourceVersion := v1; np_Conditions := cs1 |}
            ConditionTypeNodeRegistrationHealthy r m)
         {| np_Name := label (nc_Labels nc) NodePoolLabelKey;
            np_ResourceVersion := v1; np_Conditions := cs1 |} true s1).2) as Hpatch.
  { intros r m. unfold Store_patch, NodePool_SetFalse.
    cbn [np_Name np_ResourceVersion np_Conditions].
    rewrite Hp, Z.eqb_refl. cbn [negb andb snd st_pools].
    intros k v cs Hk Hwhy. specialize (HR k v cs Hk Hwhy).
    destruct (decide (k = label (nc_Labels nc) NodePoolLabelKey)) as [-> | Hne].
    - destruct Hwhy as [Hdec | Hne]; [| done].
      rewrite Hp in HR. simplify_eq. unfold decided in Hdec. cbn in Hunk. congruence.
    - cbn [st_pools]. by rewrite lookup_insert_ne. }
  destruct (ConditionSet_Get (nc_Conditions nc) ConditionTypeLaunched) as [c|];
    [| done].
  destruct (IsTrue (Some c)); cbv beta iota.
  - specialize (Hpatch "RegistrationFailed" "Failed to register node").
    destruct (Store_patch _ _ true s1) as [r s2]. cbn [snd] in Hpatch.
    cbv beta iota. by destruct (IgnoreNotFound r).
  - specialize (Hpatch (Reason c) (Message c)).
    destruct (Store_patch _ _ true s1) as [r s2]. cbn [snd] in Hpatch.
    cbv beta iota. by destruct (IgnoreNotFound r).
Qed.

Lemma Store_pools_kept (s : Store) (nc : NodeClaim) :
  pools_kept nc s (world_of (run (Reconcile nc) s)).
Proof.
  apply (Reconcile_preserves_with (λ (s' : Store) (_ : list Event), pools_kept nc s s')
           nc); try (intros; intros s1 tr HR; exact HR).
  - intros s1 tr HR. unfold Delete.
    cbn [kube_Delete Store_Collaborators].
    pose proof (Store_delete_pools nc s1) as Hd.
    destruct (Store_delete nc s1) as [r s2]. cbn in *.
    intros k v cs Hk Hwhy. rewrite Hd. by apply HR.
  - apply Store_propagation_keeps_pools.
  - by intros k v cs Hk _.
Qed.

(** X9.  In the reference store an invocation for a claim changes no pool
    but the one its label names, and that one only while its health
    condition is undecided: a pool whose condition is True or False, and
    every other pool, has the same version and the same conditions
    afterwards, on every path. *)
Theorem Store_decided_pools_kept (s : Store) (nc : NodeClaim) (k : string) (v : Z)
    (cs : list Condition) :
  st_pools s !! k = Some (v, cs) →
  decided cs ∨ k ≠ label (nc_Labels nc) NodePoolLabelKey →
  st_pools (world_of (run (Reconcile nc) s)) !! k = Some (v, cs).
Proof.
  intros Hk Hwhy.
  pose proof (Store_pools_kept s nc) as Hkept.
  by apply Hkept.
Qed.

Lemma decided_SetFalse (cs : list Condition) (r m : string) :
  decided (ConditionSet_SetFalse cs ConditionTypeNodeRegistrationHealthy r m).
Proof.
  pose proof (health_of_SetFalse
                {| np_Name := ""; np_ResourceVersion := 0; np_Conditions := cs |} r m)
    as Hh.
  unfold health_of, NodePool_SetFalse in Hh. cbn [np_Conditions] in Hh.
  unfold decided. by rewrite Hh.
Qed.

(** X10.  In the reference store a pool is marked once.  A launched claim
    whose registration has timed out and whose pool is undecided takes the
    claim out of the store and leaves the pool with its version moved on by
    one and its health condition False, "RegistrationFailed"; after that no
    invocation for any claim changes that pool again. *)
Theorem Store_pool_marked_once (s : Store) (nc : NodeClaim) (reg : Condition) (v : Z)
    (cs : list Condition) :
  IsTrue (launched_of nc) = true →
  registered_of nc = Some reg →
  IsTrue (registered_of nc) = false →
  registrationTimeout ≤ time.Time_Sub (st_now s) (LastTransitionTime reg) →
  label (nc_Labels nc) NodePoolLabelKey ≠ "" →
  st_pools s !! label (nc_Labels nc) NodePoolLabelKey = Some (v, cs) →
  IsUnknown (ConditionSet_Get cs ConditionTypeNodeRegistrationHealthy) = true →
  result_of (run (Reconcile nc) s) = done ∧
  (nc_Name nc ∉ st_claims (world_of (run (Reconcile nc) s))) ∧
  st_pools (world_of (run (Reconcile nc) s)) !! label (nc_Labels nc) NodePoolLabelKey =
    Some (v + 1,
          ConditionSet_SetFalse cs ConditionTypeNodeRegistrationHealthy
            "RegistrationFailed" "Failed to register node") ∧
  ∀ nc' : NodeClaim,
    st_pools (world_of (run (Reconcile nc') (world_of (run (Reconcile nc) s))))
      !! label (nc_Labels nc) NodePoolLabelKey =
    Some (v + 1,
          ConditionSet_SetFalse cs ConditionTypeNodeRegistrationHealthy
            "RegistrationFailed" "Failed to register node").
Proof.
  intros Hl Hr Hnt Hexp Hlabel Hp Hunk.
  set (s1 :=
    {| st_now := st_now s; st_claims := st_claims s;
       st_pools :=
         <[ label (nc_Labels nc) NodePoolLabelKey :=
              (v + 1,
               ConditionSet_SetFalse cs ConditionTypeNodeRegistrationHealthy
                 "RegistrationFailed" "Failed to register node") ]> (st_pools s) |}).
  assert (result_of (run (Reconcile nc) s) = after_delete (Store_delete nc s1).1 ∧
          world_of (run (Reconcile nc) s) = (Store_delete nc s1).2) as [Hres Hworld].
  { unfold result_of, world_of, run, Reconcile, launchStage, registrationStage,
      updateNodePoolRegistrationHealth, Since, Get, StatusPatch, DeepCopy, bind, ret.
    unfold registered_of, launched_of in *.
    rewrite Hnt. rewrite Hr.
    destruct (ConditionSet_Get (nc_Conditions nc) ConditionTypeLaunched) as [c|];
      [| discriminate].
    rewrite Hl. cbn [negb].
    cbn [clock_Now kube_Get kube_StatusPatch kube_Delete Store_Collaborators].
    rewrite expired_at by (done || by rewrite registrationTimeout_eq).
    rewrite label_eqb_nonempty by done. cbn [negb].
    unfold Store_get. rewrite Hp. cbv beta iota. cbn [np_Conditions].
    rewrite Hunk. cbv beta iota.
    unfold Store_patch, NodePool_SetFalse.
    cbn [np_Name np_ResourceVersion np_Conditions].
    rewrite Hp, Z.eqb_refl. cbn [negb andb IgnoreNotFound]. cbv beta iota.
    rewrite deleteNodeClaimForTimeout_run.
    cbn [kube_Delete Store_Collaborators]. fold s1.
    by destruct (Store_delete nc s1) as [[[]|] s2]. }
  assert (st_pools (Store_delete nc s1).2 !! label (nc_Labels nc) NodePoolLabelKey =
          Some (v + 1,
                ConditionSet_SetFalse cs ConditionTypeNodeRegistrationHealthy
                  "RegistrationFailed" "Failed to register node")) as Hpool.
  { rewrite Store_delete_pools. unfold s1. cbn [st_pools]. apply lookup_insert_eq. }
  rewrite Hres, Hworld. repeat split.
  - unfold Store_delete. by case_decide.
  - unfold Store_delete. case_decide; cbn [snd st_claims]; [| done].
    intros [_ Hne]%elem_of_difference. by apply Hne, elem_of_singleton.
  - done.
  - intros nc'. apply (Store_pools_kept _ nc'); [done |].
    left. apply decided_SetFalse.
Qed.

(** ** The further properties at concrete inputs *)


(** An instance: three minutes into the launch window the delay asked for
    is two minutes; five minutes in, the claim is deleted. *)
Lemma requeue_after_is_sufficient_witness :
  result_of (run (Reconcile launch_failed)
               (store (minutes 3) true (health ConditionUnknown))) =
    requeue_after (launchTimeout - time.Time_Sub (minutes 3) 0) ∧
  ∃ e rest,
    trace_of (run (Reconcile launch_failed)
                (store (minutes 5) true (health ConditionUnknown))) =
      EvSince 0 (time.Time_Sub (minutes 5) 0) :: e :: rest ∧
    is_store_call e = true.
Proof.
  assert (launchTimeout - 2 ^ 63 < time.Time_Sub (minutes 3) 0) as Hlo
    by (vm_compute; reflexivity).
  assert (time.Time_Sub (minutes 3) 0 < launchTimeout) as Hhi
    by (vm_compute; reflexivity).
  assert (minutes 3 + (launchTimeout - time.Time_Sub (minutes 3) 0) ≤ minutes 5) as Hlater
    by (vm_compute; discriminate).
  exact (requeue_after_is_sufficient
           (store (minutes 3) true (health ConditionUnknown))
           (store (minutes 3) true (health ConditionUnknown))
           (store (minutes 5) true (health ConditionUnknown))
           (store (minutes 5) true (health ConditionUnknown))
           launch_failed
           (cond ConditionTypeLaunched ConditionUnknown "LaunchFailed" "no capacity" 0)
           launchTimeout (minutes 3) (minutes 5)
           eq_refl (or_introl (conj eq_refl (conj eq_refl eq_refl)))
           eq_refl Hlo Hhi eq_refl Hlater).
Defined.

(** An instance: a pool already False is as it was after the registration
    timeout of one of its claims. *)
Lemma Store_decided_pools_kept_witness :
  st_pools
    (world_of (run (Reconcile launched) (store (minutes 20) true (health ConditionFalse))))
    !! "default" = Some (7, health ConditionFalse).
Proof.
  assert (st_pools (store (minutes 20) true (health ConditionFalse)) !! "default" =
          Some (7, health ConditionFalse)) as Hpool
    by (vm_compute; reflexivity).
  exact (Store_decided_pools_kept
           (store (minutes 20) true (health ConditionFalse)) launched "default" 7
           (health ConditionFalse) Hpool (or_introl eq_refl)).
Defined.

(** An instance: a launched claim, twenty minutes on, its pool undecided at
    version 7. *)
Lemma Store_pool_marked_once_witness :
  result_of (run (Reconcile launched)
               (store (minutes 20) true (health ConditionUnknown))) = done ∧
  (nc_Name launched ∉
     st_claims (world_of (run (Reconcile launched)
                            (store (minutes 20) true (health ConditionUnknown))))) ∧
  st_pools (world_of (run (Reconcile launched)
                        (store (minutes 20) true (health ConditionUnknown))))
    !! label (nc_Labels launched) NodePoolLabelKey =
    Some (7 + 1,
          ConditionSet_SetFalse (health ConditionUnknown)
            ConditionTypeNodeRegistrationHealthy
            "RegistrationFailed" "Failed to register node") ∧
  ∀ nc' : NodeClaim,
    st_pools
      (world_of (run (Reconcile nc')
                   (world_of (run (Reconcile launched)
                                (store (minutes 20) true (health ConditionUnknown))))))
      !! label (nc_Labels launched) NodePoolLabelKey =
    Some (7 + 1,
          ConditionSet_SetFalse (health ConditionUnknown)
            ConditionTypeNodeRegistrationHealthy
            "RegistrationFailed" "Failed to register node").
Proof.
  assert (registrationTimeout ≤ time.Time_Sub (minutes 20) 0) as Hexpired
    by (vm_compute; discriminate).
  assert (label (nc_Labels launched) NodePoolLabelKey ≠ "") as Hlabel
    by (vm_compute; discriminate).
  assert (st_pools (store (minutes 20) true (health ConditionUnknown))
            !! label (nc_Labels launched) NodePoolLabelKey =
          Some (7, health ConditionUnknown)) as Hpool
    by (vm_compute; reflexivity).
  exact (Store_pool_marked_once
           (store (minutes 20) true (health ConditionUnknown)) launched
           (cond ConditionTypeRegistered ConditionUnknown "AwaitingReconciliation" "" 0)
           7 (health ConditionUnknown)
           eq_refl eq_refl eq_refl Hexpired Hlabel Hpool eq_refl).
Defined.

(** An instance: a Launched condition dated more than 2^63 nanoseconds
    ahead of the clock; the claim is deleted at once. *)
Lemma far_ahead_transition_counts_as_timeout_witness :
  time.sub launchTimeout (time.Time_Sub 0 (2 ^ 63 + 1)) ≤ 0 ∧
  ∃ e rest,
    trace_of (run (Reconcile launch_far_ahead)
                (store 0 false (health ConditionUnknown))) =
      EvSince (2 ^ 63 + 1) (time.Time_Sub 0 (2 ^ 63 + 1)) :: e :: rest ∧
    is_store_call e = true.
Proof.
  assert (time.Time_Sub 0 (2 ^ 63 + 1) ≤ launchTimeout - 2 ^ 63) as Hfar
    by (vm_compute; discriminate).
  exact (far_ahead_transition_counts_as_timeout
           (store 0 false (health ConditionUnknown))
           (store 0 false (health ConditionUnknown))
           launch_far_ahead
           (cond ConditionTypeLaunched ConditionUnknown "LaunchFailed" "no capacity"
              (2 ^ 63 + 1))
           launchTimeout 0
           eq_refl (or_introl (conj eq_refl (conj eq_refl eq_refl))) eq_refl Hfar).
Defined.
